(** * ejemplo-mlflow.ipynb: the notebook as a monadic script over its libraries

    The repository is one Jupyter notebook, [examples/ejemplo-mlflow.ipynb].
    Its code cells are straight-line Python that calls scikit-learn, numpy
    and mlflow.  None of these libraries is part of the repository, so the
    development is parametric in them: a library is any function [lib] that
    answers a call in a world and leaves a new world, either with a value
    or with a raised exception.  The cells are written in a small
    state-and-exception monad that performs the calls in order and keeps the
    journal of the calls made and of their outcomes.  *)

From Stdlib Require Import List Ascii String ZArith QArith Bool Lia.
Import ListNotations.
Close Scope Q_scope.
Open Scope string_scope.
Open Scope list_scope.

Set Implicit Arguments.

(** ** Python values *)

(** An unfitted scikit-learn estimator is the record of its constructor
    arguments: [KMeans(n_clusters=.., random_state=..)] and
    [DBSCAN(eps=.., min_samples=..)] only store them.  An argument the
    cell leaves out ([random_state]) is [None]. *)
Inductive estimator : Type :=
| KMeans (n_clusters : Z) (random_state : option Z)
| DBSCAN (eps : Q) (min_samples : Z).

(** Literals of the notebook are kept as data; every object made by a
    library (the dataset, arrays, fitted models, the active run) is an
    opaque reference.  The float literal [0.5] is the rational 1/2, which a
    binary float holds exactly. *)
#[warnings="-register-all"]
Inductive value : Type :=
| VNone
| VBool (b : bool)
| VInt (z : Z)
| VFloat (q : Q)
| VStr (s : string)
| VList (l : list value)
| VEstimator (e : estimator)
| VObj (ref : N).

(** Truth value of an object, as the [with] statement tests the result of
    [__exit__]. *)
Definition truthy (v : value) : bool :=
  match v with
  | VNone => false
  | VBool b => b
  | VInt z => negb (Z.eqb z 0)
  | VFloat q => negb (Qeq_bool q 0)
  | VStr s => negb (String.eqb s "")
  | VList l => match l with [] => false | _ :: _ => true end
  | VEstimator _ => true
  | VObj _ => true
  end.

(** ** Calls into the libraries *)

(** One constructor per operation the notebook asks of code that is not its
    own, with the arguments as the cell passes them. *)
Inductive call : Type :=
| import_ (module : string) (names : list string)
| load_iris
| getattr (obj : value) (attr : string)
| getitem (obj : value) (index : value)
| np_array (object : value)
| fit (self : value) (X : value)
| fit_predict (self : value) (X : value)
| silhouette_score (X : value) (labels : value)
| davies_bouldin_score (X : value) (labels : value)
| mlflow_autolog
| mlflow_create_experiment (name : value)
| mlflow_start_run (experiment_id : value) (run_name : value)
| ctx_enter (mgr : value)
| ctx_exit (mgr : value) (exc : option value)
| mlflow_log_param (key : value) (val : value)
| mlflow_log_metric (key : value) (val : value)
| mlflow_sklearn_log_model (sk_model : value) (artifact_path : value)
                           (input_example : value)
| mlflow_end_run
| system (cmd : string).

(** The name under which the notebook reaches each operation. *)
Definition kind (c : call) : string :=
  match c with
  | import_ _ _ => "import"
  | load_iris => "load_iris"
  | getattr _ a => ("." ++ a)%string
  | getitem _ _ => "[]"
  | np_array _ => "np.array"
  | fit _ _ => "fit"
  | fit_predict _ _ => "fit_predict"
  | silhouette_score _ _ => "silhouette_score"
  | davies_bouldin_score _ _ => "davies_bouldin_score"
  | mlflow_autolog => "mlflow.autolog"
  | mlflow_create_experiment _ => "mlflow.create_experiment"
  | mlflow_start_run _ _ => "mlflow.start_run"
  | ctx_enter _ => "__enter__"
  | ctx_exit _ _ => "__exit__"
  | mlflow_log_param _ _ => "mlflow.log_param"
  | mlflow_log_metric _ _ => "mlflow.log_metric"
  | mlflow_sklearn_log_model _ _ _ => "mlflow.sklearn.log_model"
  | mlflow_end_run => "mlflow.end_run"
  | system _ => "!"
  end.

(** Where an operation is implemented, after the imports of the first code
    cell. *)
Inductive origin : Type :=
| Interpreter       (* import machinery *)
| ObjectAccess      (* attribute read or indexing on a library object *)
| SklearnDatasets
| SklearnCluster
| SklearnMetrics
| Numpy
| MLflow
| Shell.            (* IPython's [!] escape *)

Definition origin_of (c : call) : origin :=
  match c with
  | import_ _ _ => Interpreter
  | load_iris => SklearnDatasets
  | getattr _ _ => ObjectAccess
  | getitem _ _ => ObjectAccess
  | np_array _ => Numpy
  | fit _ _ => SklearnCluster
  | fit_predict _ _ => SklearnCluster
  | silhouette_score _ _ => SklearnMetrics
  | davies_bouldin_score _ _ => SklearnMetrics
  | mlflow_autolog => MLflow
  | mlflow_create_experiment _ => MLflow
  | mlflow_start_run _ _ => MLflow
  | ctx_enter _ => MLflow
  | ctx_exit _ _ => MLflow
  | mlflow_log_param _ _ => MLflow
  | mlflow_log_metric _ _ => MLflow
  | mlflow_sklearn_log_model _ _ _ => MLflow
  | mlflow_end_run => MLflow
  | system _ => Shell
  end.

(** ** Outcomes and the journal *)

Inductive outcome (A : Type) : Type :=
| Val (a : A)
| Raise (e : value).
Arguments Val {A} a.
Arguments Raise {A} e.

(** One line of the journal: the call and how the library answered. *)
Definition entry : Type := (call * outcome value)%type.

Definition raised (en : entry) : bool :=
  match snd en with Val _ => false | Raise _ => true end.

(** ** The script monad *)

Section Script.

Variable World : Type.
Variable lib : call -> World -> outcome value * World.

(** The state is the world of the libraries and the journal, most recent
    entry first. *)
Definition state : Type := (World * list entry)%type.

Definition nb (A : Type) : Type := state -> outcome A * state.

Definition ret {A} (a : A) : nb A := fun st => (Val a, st).

Definition bind {A B} (m : nb A) (f : A -> nb B) : nb B :=
  fun st =>
    match m st with
    | (Val a, st') => f a st'
    | (Raise e, st') => (Raise e, st')
    end.

(** A call is performed in the current world and written to the journal,
    whatever its outcome. *)
Definition perform (c : call) : nb value :=
  fun st =>
    match lib c (fst st) with
    | (o, w') => (o, (w', (c, o) :: snd st))
    end.

(** [with EXPR: BLOCK] as Python runs it: the manager is entered, the
    block runs, and [__exit__] is called on the way out.  When the block
    raised, the exception goes on unless [__exit__] returns a true
    value. *)
Definition with_ (EXPR : nb value) (BLOCK : nb unit) : nb unit :=
  bind EXPR (fun mgr =>
  bind (perform (ctx_enter mgr)) (fun _ =>
  fun st =>
    match BLOCK st with
    | (Val _, st') => bind (perform (ctx_exit mgr None)) (fun _ => ret tt) st'
    | (Raise e, st') =>
        match perform (ctx_exit mgr (Some e)) st' with
        | (Val r, st'') =>
            if truthy r then (Val tt, st'') else (Raise e, st'')
        | (Raise e', st'') => (Raise e', st'')
        end
    end)).

Notation "x <- m ;; k" := (bind m (fun x => k))
  (at level 61, m at next level, right associativity).
Notation "m ;; k" := (bind m (fun _ => k))
  (at level 61, right associativity).

(** ** The code cells, in file order

    Cells are numbered by their position in the notebook file (markdown
    cells included).  A name assigned in one cell and read in a later one
    ([features], [exp_id]) is returned by the first and taken as an argument
    by the second; names assigned and read inside one cell are binders.
    In file order every name is assigned before it is read, so the only
    exceptions are those the calls raise. *)

(** Cell 1: the imports. *)
Definition cell_1 : nb unit :=
  perform (import_ "mlflow" []) ;;
  perform (import_ "numpy" []) ;;
  perform (import_ "sklearn.datasets" ["load_iris"]) ;;
  perform (import_ "sklearn.cluster" ["DBSCAN"; "KMeans"]) ;;
  perform (import_ "sklearn.metrics"
                   ["silhouette_score"; "davies_bouldin_score"]) ;;
  ret tt.

(** Cell 3: [db = load_iris(); features = db.data; target = db.target]. *)
Definition cell_3 : nb (value * value * value) :=
  db <- perform load_iris ;;
  features <- perform (getattr db "data") ;;
  target <- perform (getattr db "target") ;;
  ret (db, features, target).

(** Cell 5: autologging is switched on and DBSCAN is fitted; the value of
    the last expression is the cell's output. *)
Definition cell_5 (features : value) : nb value :=
  perform mlflow_autolog ;;
  let dbscan := VEstimator (DBSCAN (1 # 2)%Q 5) in
  perform (fit_predict dbscan features).

(** Cell 6: KMeans with a fixed seed; the commented-out last line of the
    cell is not code. *)
Definition cell_6 (features : value) : nb value :=
  let kmeans := VEstimator (KMeans 3 (Some 42%Z)) in
  perform (fit_predict kmeans features).

(** Cell 8: the experiment is created and the run "Kmeans - K=2" is made. *)
Definition cell_8 (features : value) : nb value :=
  let exp_name := VStr "Clustering-Ejemplos" in
  exp_id <- perform (mlflow_create_experiment exp_name) ;;
  with_ (perform (mlflow_start_run exp_id (VStr "Kmeans - K=2")))
    (let modelo_clusters := VEstimator (KMeans 2 None) in
     trained_model <- perform (fit modelo_clusters features) ;;
     cluster_labels <- perform (getattr trained_model "labels_") ;;
     score <- perform (silhouette_score features cluster_labels) ;;
     perform (mlflow_log_param (VStr "value_of_k") (VInt 2)) ;;
     perform (mlflow_log_metric (VStr "silhoutte_score") score) ;;
     row <- perform (getitem features (VInt 0)) ;;
     input_example <- perform (np_array (VList [row])) ;;
     perform (mlflow_sklearn_log_model trained_model
                (VStr "Clustering_Model") input_example) ;;
     perform mlflow_end_run ;;
     ret tt) ;;
  ret exp_id.

(** Cell 9: the run "Kmeans - K=3", with a second score. *)
Definition cell_9 (features exp_id : value) : nb unit :=
  with_ (perform (mlflow_start_run exp_id (VStr "Kmeans - K=3")))
    (let modelo_clusters := VEstimator (KMeans 3 None) in
     trained_model <- perform (fit modelo_clusters features) ;;
     cluster_labels <- perform (getattr trained_model "labels_") ;;
     score <- perform (silhouette_score features cluster_labels) ;;
     score_2 <- perform (davies_bouldin_score features cluster_labels) ;;
     perform (mlflow_log_param (VStr "value_of_k") (VInt 3)) ;;
     perform (mlflow_log_metric (VStr "silhoutte_score") score) ;;
     perform (mlflow_log_metric (VStr "davies_bouldin_score") score_2) ;;
     row <- perform (getitem features (VInt 0)) ;;
     input_example <- perform (np_array (VList [row])) ;;
     perform (mlflow_sklearn_log_model trained_model
                (VStr "Clustering_Model") input_example) ;;
     perform mlflow_end_run ;;
     ret tt).

(** Cell 10: the run "DBSCAN". *)
Definition cell_10 (features exp_id : value) : nb unit :=
  with_ (perform (mlflow_start_run exp_id (VStr "DBSCAN")))
    (let modelo_clusters := VEstimator (DBSCAN (1 # 2)%Q 5) in
     trained_model <- perform (fit modelo_clusters features) ;;
     cluster_labels <- perform (getattr trained_model "labels_") ;;
     score <- perform (silhouette_score features cluster_labels) ;;
     perform (mlflow_log_param (VStr "min_samples") (VInt 5)) ;;
     perform (mlflow_log_param (VStr "eps") (VFloat (1 # 2)%Q)) ;;
     perform (mlflow_log_metric (VStr "silhoutte_score") score) ;;
     row <- perform (getitem features (VInt 0)) ;;
     input_example <- perform (np_array (VList [row])) ;;
     perform (mlflow_sklearn_log_model trained_model
                (VStr "Clustering_Model") input_example) ;;
     perform mlflow_end_run ;;
     ret tt).

(** Cell 12: [!mlflow ui]. *)
Definition cell_12 : nb unit :=
  perform (system "mlflow ui") ;;
  ret tt.

(** The notebook run from top to bottom in a fresh kernel; a cell that
    raises stops the run. *)
Definition notebook : nb unit :=
  cell_1 ;;
  globals <- cell_3 ;;
  let '(db, features, target) := globals in
  cell_5 features ;;
  cell_6 features ;;
  exp_id <- cell_8 features ;;
  cell_9 features exp_id ;;
  cell_10 features exp_id ;;
  cell_12.

(** The code cells as a list, each with its result dropped, for statements
    about every cell. *)
Definition void {A} (m : nb A) : nb unit := m ;; ret tt.

Definition code_cells (features exp_id : value) : list (nb unit) :=
  [ cell_1; void cell_3; void (cell_5 features); void (cell_6 features);
    void (cell_8 features); cell_9 features exp_id;
    cell_10 features exp_id; cell_12 ].

(** Running a script in a world, from an empty journal; the journal is
    returned oldest entry first. *)
Definition run {A} (m : nb A) (w : World) : outcome A * list entry :=
  match m (w, []) with
  | (o, (_, log)) => (o, rev log)
  end.

Definition journal {A} (m : nb A) (w : World) : list entry := snd (run m w).

Definition result {A} (m : nb A) (w : World) : outcome A := fst (run m w).

End Script.

Arguments ret {World A} a.

(** ** What a journal says about runs *)

Definition calls (tr : list entry) : list call := map fst tr.

(** A run as the notebook delimits it: the name given to a successful
    [mlflow.start_run], and the journal entries up to the next successful
    [mlflow.end_run]. *)
Definition run_record : Type := (value * list entry)%type.

Fixpoint runs_from (open : option run_record) (tr : list entry)
  : list run_record :=
  match tr with
  | [] => []
  | en :: tr' =>
      match en, open with
      | (mlflow_start_run _ name, Val _), _ => runs_from (Some (name, [])) tr'
      | (mlflow_end_run, Val _), Some (name, body) =>
          (name, rev body) :: runs_from None tr'
      | _, Some (name, body) => runs_from (Some (name, en :: body)) tr'
      | _, None => runs_from None tr'
      end
  end.

Definition ended_runs (tr : list entry) : list run_record := runs_from None tr.

(** Key and value of each successful [mlflow.log_param]. *)
Definition params (tr : list entry) : list (value * value) :=
  flat_map (fun en => match en with
                      | (mlflow_log_param k v, Val _) => [(k, v)]
                      | _ => []
                      end) tr.

(** Key and value of each successful [mlflow.log_metric]. *)
Definition metrics (tr : list entry) : list (value * value) :=
  flat_map (fun en => match en with
                      | (mlflow_log_metric k v, Val _) => [(k, v)]
                      | _ => []
                      end) tr.

(** Model and artifact path of each successful [mlflow.sklearn.log_model]. *)
Definition models (tr : list entry) : list (value * value) :=
  flat_map (fun en => match en with
                      | (mlflow_sklearn_log_model m path _, Val _) =>
                          [(m, path)]
                      | _ => []
                      end) tr.

(** Estimators handed to a successful [fit]. *)
Definition fitted (tr : list entry) : list value :=
  flat_map (fun en => match en with
                      | (fit self _, Val _) => [self]
                      | _ => []
                      end) tr.



(** ** A simulated library

    A stand-in for the three libraries, used to run the notebook on concrete
    data.  Its world is the state of the global random generator.  Every
    answer is a function of the call alone, except the fit of a KMeans
    estimator built without [random_state], which draws from the generator.
    Its [__exit__] answers as mlflow's does: true exactly when no exception
    is passed. *)
Definition sim_fit (self : value) (w : N) : value * N :=
  match self with
  | VEstimator (KMeans n (Some seed)) => (VObj (1000 + Z.to_N n), w)
  | VEstimator (KMeans n None) =>
      (VObj (2000 + 10 * Z.to_N n + w mod 2), N.succ w)
  | VEstimator (DBSCAN _ _) => (VObj 3000, w)
  | _ => (VNone, w)
  end.

Definition sim_labels (model : value) : value :=
  match model with
  | VObj r => VObj (r + 10000)
  | _ => VNone
  end.

Definition sim_score (scale : Z) (labels : value) : value :=
  match labels with
  | VObj r => VFloat (Z.of_N r * scale # 100000)%Q
  | _ => VNone
  end.

Definition sim_lib (c : call) (w : N) : outcome value * N :=
  match c with
  | import_ _ _ => (Val VNone, w)
  | load_iris => (Val (VObj 1), w)
  | getattr obj attr =>
      if String.eqb attr "data" then (Val (VObj 2), w)
      else if String.eqb attr "target" then (Val (VObj 3), w)
      else (Val (sim_labels obj), w)
  | getitem _ _ => (Val (VObj 4), w)
  | np_array _ => (Val (VObj 5), w)
  | fit self _ => let '(m, w') := sim_fit self w in (Val m, w')
  | fit_predict self _ =>
      let '(m, w') := sim_fit self w in (Val (sim_labels m), w')
  | silhouette_score _ labels => (Val (sim_score 1 labels), w)
  | davies_bouldin_score _ labels => (Val (sim_score 2 labels), w)
  | mlflow_autolog => (Val VNone, w)
  | mlflow_create_experiment _ => (Val (VStr "1"), w)
  | mlflow_start_run _ _ => (Val (VObj 7), w)
  | ctx_enter mgr => (Val mgr, w)
  | ctx_exit _ exc =>
      (Val (VBool (match exc with None => true | Some _ => false end)), w)
  | mlflow_log_param _ _ => (Val VNone, w)
  | mlflow_log_metric _ _ => (Val VNone, w)
  | mlflow_sklearn_log_model _ _ _ => (Val (VObj 8), w)
  | mlflow_end_run => (Val VNone, w)
  | system _ => (Val VNone, w)
  end.

(** A library in which the calls of one kind raise, for runs that fail. *)
Definition failing_on (bad : string) (World : Type)
  (lib : call -> World -> outcome value * World)
  (c : call) (w : World) : outcome value * World :=
  if String.eqb (kind c) bad then (Raise (VStr bad), w) else lib c w.

(** ** Observations used by the statements *)

(** The runs the notebook names. *)
Definition named_runs : list value :=
  [VStr "Kmeans - K=2"; VStr "Kmeans - K=3"; VStr "DBSCAN"].

(** A run holds at least one parameter, at least one metric and one model. *)
Definition records_all (r : run_record) : Prop :=
  1 <= List.length (params (snd r)) /\
  1 <= List.length (metrics (snd r)) /\
  List.length (models (snd r)) = 1.


(** The exception of the most recent raising call of a journal. *)
Fixpoint last_raised (tr : list entry) : option value :=
  match tr with
  | [] => None
  | (_, Raise e) :: tr' =>
      match last_raised tr' with Some e' => Some e' | None => Some e end
  | (_, Val _) :: tr' => last_raised tr'
  end.

(** What a journal holds after its first raising call. *)
Fixpoint after_first_raise (tr : list entry) : list entry :=
  match tr with
  | [] => []
  | en :: tr' => if raised en then tr' else after_first_raise tr'
  end.

(** No [__exit__] that was handed an exception answered with a true value:
    the context manager let every exception through, as mlflow's active run
    does. *)
Definition exits_pass (tr : list entry) : Prop :=
  forall mgr exc r,
    In (ctx_exit mgr (Some exc), Val r) tr -> truthy r = false.

(** The parameters the notebook may log, with their values. *)
Definition hyperparameters : list (value * value) :=
  [ (VStr "value_of_k", VInt 2); (VStr "value_of_k", VInt 3);
    (VStr "min_samples", VInt 5); (VStr "eps", VFloat (1 # 2)%Q) ].

(** The keys under which a metric may be logged, each with the scoring
    function whose answer it holds. *)
Definition scored_by (key : value) (X labels : value) : option call :=
  match key with
  | VStr k =>
      if String.eqb k "silhoutte_score" then Some (silhouette_score X labels)
      else if String.eqb k "davies_bouldin_score"
           then Some (davies_bouldin_score X labels)
           else None
  | _ => None
  end.

(** Words of a shell command line. *)
Fixpoint words_from (acc : string) (s : string) : list string :=
  match s with
  | EmptyString => match acc with EmptyString => [] | _ => [acc] end
  | String c s' =>
      if Ascii.eqb c " "%char
      then match acc with
           | EmptyString => words_from "" s'
           | _ => acc :: words_from "" s'
           end
      else words_from (acc ++ String c "")%string s'
  end.

Definition argv (cmd : string) : list string := words_from "" cmd.

(** The shell escape of IPython, [!cmd]: the one statement of the notebook
    that is not Python.  IPython hands its command line to a shell in a
    child process of the kernel.  Every other call is a Python import, a
    function call, or an attribute or item access; the threads and
    processes that the libraries start while they answer these are the
    libraries' and are not described here. *)
Definition shell_escape (c : call) : bool :=
  match c with
  | system _ => true
  | _ => false
  end.

(** The modules the notebook imports, in order. *)
Definition module_of (c : call) : list string :=
  match c with
  | import_ module _ => [module]
  | _ => []
  end.

Definition imported_modules (tr : list entry) : list string :=
  flat_map (fun en => module_of (fst en)) tr.

Definition notebook_modules : list string :=
  ["mlflow"; "numpy"; "sklearn.datasets"; "sklearn.cluster";
   "sklearn.metrics"].

(** The calls of a journal to a scoring function of [sklearn.metrics], by
    name. *)
Definition is_score (c : call) : bool :=
  match origin_of c with
  | SklearnMetrics => true
  | _ => false
  end.

Definition score_calls (tr : list entry) : list string :=
  map kind (filter is_score (calls tr)).

(** The libraries the notebook imports, and what reaches into their
    objects. *)
Definition libraries : list origin :=
  [Interpreter; ObjectAccess; SklearnDatasets; SklearnCluster; SklearnMetrics;
   Numpy; MLflow].

(** The shell commands of a journal. *)
Definition shell_commands (tr : list entry) : list string :=
  flat_map (fun en => match fst en with system cmd => [cmd] | _ => [] end) tr.

(** The parameters a run logs are the constructor arguments of the
    estimator it fits. *)
Definition params_match_estimator (r : run_record) : Prop :=
  match fitted (snd r) with
  | [VEstimator (KMeans n_clusters _)] =>
      params (snd r) = [(VStr "value_of_k", VInt n_clusters)]
  | [VEstimator (DBSCAN eps min_samples)] =>
      params (snd r) = [(VStr "min_samples", VInt min_samples);
                        (VStr "eps", VFloat eps)]
  | _ => False
  end.

(** The silhouette score computed in a run is logged there under the key
    'silhoutte_score'. *)
Definition logs_silhoutte (r : run_record) : Prop :=
  exists X labels v,
    In (silhouette_score X labels, Val v) (snd r) /\
    In (VStr "silhoutte_score", v) (metrics (snd r)).

(** A fit that draws from the global random generator: KMeans built without
    [random_state]. *)
Definition draws_randomness (c : call) : bool :=
  match c with
  | fit (VEstimator (KMeans _ None)) _ => true
  | fit_predict (VEstimator (KMeans _ None)) _ => true
  | _ => false
  end.

(** The contract of a library whose only randomness is that generator: the
    answer to any other call does not depend on the world. *)
Definition seeded_deterministic (World : Type)
  (lib : call -> World -> outcome value * World) : Prop :=
  forall c w w', draws_randomness c = false -> fst (lib c w) = fst (lib c w').





(** The entries of the current run, read from a log that is most recent
    first: those after the last [mlflow.start_run]. *)
Fixpoint current_run (log : list entry) : list entry :=
  match log with
  | [] => []
  | en :: older =>
      match fst en with
      | mlflow_start_run _ _ => []
      | _ => en :: current_run older
      end
  end.

(** A logged metric [key = v] comes from the library: the dataset was
    loaded, its [data] are the features, a model was fitted on them in the
    current run, and [v] is what the scoring function of [key] answered on
    the features and the [labels_] of that model. *)
Definition from_library (before inrun : list entry) (key v : value) : Prop :=
  exists db X est model labels score,
    In (load_iris, Val db) before /\
    In (getattr db "data", Val X) before /\
    In (fit est X, Val model) inrun /\
    In (getattr model "labels_", Val labels) inrun /\
    scored_by key X labels = Some score /\
    In (score, Val v) inrun.

(** Every [mlflow.log_metric] of a journal logs a value that comes from the
    library, given the entries before it. *)
Definition each_metric_from_library (tr : list entry) : Prop :=
  forall pre key v o post,
    tr = pre ++ (mlflow_log_metric key v, o) :: post ->
    from_library pre (current_run (rev pre)) key v.

(** The same, entry by entry on a log that is most recent first. *)
Definition justified (en : entry) (older : list entry) : Prop :=
  match fst en with
  | mlflow_log_metric key v => from_library older (current_run older) key v
  | _ => True
  end.

Fixpoint provenance (log : list entry) : Prop :=
  match log with
  | [] => True
  | en :: older => justified en older /\ provenance older
  end.

(** What is known of a log while a cell runs: its metrics are justified, the
    entries [all] are in it and the entries [inrun] are in its current
    run. *)
Definition knows (all inrun log : list entry) : Prop :=
  provenance log /\ incl all log /\ incl inrun (current_run log).

(** What a call leaves of the current run. *)
Definition inrun_after (c : call) (o : outcome value) (inrun : list entry)
  : list entry :=
  match c with
  | mlflow_start_run _ _ => []
  | _ => (c, o) :: inrun
  end.

(** What must be known before a call for its entry to be justified. *)
Definition justifiable (c : call) (all inrun : list entry) : Prop :=
  match c with
  | mlflow_log_metric key v => from_library all inrun key v
  | _ => True
  end.

(** ** Knowledge carried along a script

    A way of knowing something of the journal while a script runs: what is
    known ([K]), what it says of a log ([holds]), how a call changes it
    ([after]), what a call needs ([ok]) and what is left of it when the
    script raises or leaves a [with] block ([forget]). *)
Record knowledge : Type := {
  K : Type;
  holds : K -> list entry -> Prop;
  after : call -> outcome value -> K -> K;
  ok : call -> K -> Prop;
  forget : K -> K
}.

(** The laws a way of knowing must obey for the rules below. *)
Definition lawful (kn : knowledge) : Prop :=
  (forall c o k log,
     ok kn c k -> holds kn k log ->
     holds kn (after kn c o k) ((c, o) :: log)) /\
  (forall c o k log,
     holds kn (after kn c o k) log -> holds kn (forget kn k) log) /\
  (forall c o k log,
     holds kn (forget kn (after kn c o k)) log -> holds kn (forget kn k) log) /\
  (forall k log,
     holds kn (forget kn (forget kn k)) log -> holds kn (forget kn k) log) /\
  (forall mgr exc o k log,
     holds kn (forget kn k) log ->
     holds kn (forget kn k) ((ctx_exit mgr exc, o) :: log)) /\
  (forall mgr k, ok kn (ctx_enter mgr) k) /\
  (forall mgr exc k, ok kn (ctx_exit mgr exc) k).

(** Knowing where logged metrics come from. *)
Definition provenance_kn : knowledge := {|
  K := (list entry * list entry)%type;
  holds := fun k log => knows (fst k) (snd k) log;
  after := fun c o k => ((c, o) :: fst k, inrun_after c o (snd k));
  ok := fun c k => justifiable c (fst k) (snd k);
  forget := fun k => (fst k, [])
|}.

(** ** Runs, read from a log that is most recent first *)

(** The run that is open, if any: its name and its entries, most recent
    first. *)
Definition run_state : Type := option (value * list entry).

Definition step_open (en : entry) (open : run_state) : run_state :=
  match en with
  | (mlflow_start_run _ name, Val _) => Some (name, [])
  | (mlflow_end_run, Val _) => None
  | _ =>
      match open with
      | Some (name, body) => Some (name, en :: body)
      | None => None
      end
  end.

Definition step_ended (en : entry) (open : run_state) : list run_record :=
  match en, open with
  | (mlflow_end_run, Val _), Some (name, body) => [(name, rev body)]
  | _, _ => []
  end.

(** The open run after the entries [tr], oldest first. *)
Definition open_after (open : run_state) (tr : list entry) : run_state :=
  fold_left (fun o en => step_open en o) tr open.

Fixpoint open_of (log : list entry) : run_state :=
  match log with
  | [] => None
  | en :: older => step_open en (open_of older)
  end.

Fixpoint ended_of (log : list entry) : list run_record :=
  match log with
  | [] => []
  | en :: older => ended_of older ++ step_ended en (open_of older)
  end.

(** What every run the notebook ends satisfies: it is one of the named
    runs, it holds a parameter, a metric and one model, its parameters are
    the constructor arguments of its estimator, and its silhouette score is
    logged under 'silhoutte_score'. *)
Definition run_ok (r : run_record) : Prop :=
  In (fst r) named_runs /\ records_all r /\ params_match_estimator r /\
  logs_silhoutte r.

(** Knowing the open run: [None] when nothing is known of it. *)
Definition runs_kn : knowledge := {|
  K := option run_state;
  holds := fun k log =>
    Forall run_ok (ended_of log) /\
    match k with
    | Some open => open_of log = open
    | None => True
    end;
  after := fun c o k =>
    match k with
    | Some open => Some (step_open (c, o) open)
    | None =>
        match c, o with
        | mlflow_start_run _ name, Val _ => Some (Some (name, []))
        | mlflow_end_run, Val _ => Some None
        | _, _ => None
        end
    end;
  ok := fun c k =>
    match c with
    | mlflow_end_run =>
        match k with
        | Some (Some (name, body)) => run_ok (name, rev body)
        | Some None => True
        | None => False
        end
    | _ => True
    end;
  forget := fun _ => None
|}.

(** ** Assertions about scripts *)

Definition is_exit (en : entry) : Prop := kind (fst en) = "__exit__".

(** Every call of a list of entries returned. *)
Definition clean (new : list entry) : Prop :=
  Forall (fun en => raised en = false) new.

(** The entries of a script that ended with exception [e], most recent
    first: calls that returned, then the call that raised, then at most the
    [__exit__] calls of the enclosing [with] blocks, which let the exception
    through or raised one of their own. *)
Inductive failed : list entry -> value -> Prop :=
| failed_here c e t :
    clean t -> failed ((c, Raise e) :: t) e
| failed_exit_pass mgr e r t :
    failed t e -> failed ((ctx_exit mgr (Some e), Val r) :: t) e
| failed_exit_raise mgr e e' t :
    failed t e -> failed ((ctx_exit mgr (Some e), Raise e') :: t) e'.

Definition shape {A} (o : outcome A) (new : list entry) : Prop :=
  match o with
  | Val _ => clean new
  | Raise e => failed new e
  end.

(** A library that never raises and answers the n-th call with [ans n]; its
    world is the number of calls answered. *)
Definition oracle (ans : nat -> value) (c : call) (n : nat)
  : outcome value * nat :=
  (Val (ans n), S n).

(** The answers of a journal, by position. *)
Definition answers (tr : list entry) (n : nat) : value :=
  match nth_error tr n with
  | Some (_, Val v) => v
  | _ => VNone
  end.

(** The calls the notebook can make, argument by argument where the cell
    fixes them. *)
Definition in_script (c : call) : Prop :=
  match c with
  | getattr _ attr => In attr ["data"; "target"; "labels_"]
  | getitem _ index => index = VInt 0
  | fit self _ =>
      In self [VEstimator (KMeans 2 None); VEstimator (KMeans 3 None);
               VEstimator (DBSCAN (1 # 2)%Q 5)]
  | fit_predict self _ =>
      In self [VEstimator (DBSCAN (1 # 2)%Q 5);
               VEstimator (KMeans 3 (Some 42%Z))]
  | mlflow_create_experiment name => name = VStr "Clustering-Ejemplos"
  | mlflow_start_run _ run_name => In run_name named_runs
  | mlflow_log_param key val => In (key, val) hyperparameters
  | mlflow_log_metric key _ =>
      In key [VStr "silhoutte_score"; VStr "davies_bouldin_score"]
  | mlflow_sklearn_log_model _ artifact_path _ =>
      artifact_path = VStr "Clustering_Model"
  | system cmd => cmd = "mlflow ui"
  | _ => True
  end.

(** Only the most recent entry of a log may be a shell escape. *)
Definition escape_free (log : list entry) : Prop :=
  Forall (fun en => shell_escape (fst en) = false) log.

Definition escape_last (log : list entry) : Prop :=
  match log with
  | [] => True
  | _ :: older => escape_free older
  end.

(** What a run fitted and logged. *)
Definition digest (r : run_record)
  : value * list value * list (value * value) * list value * nat :=
  (fst r, fitted (snd r), params (snd r), map fst (metrics (snd r)),
   List.length (models (snd r))).

Definition expected_digest
  : list (value * list value * list (value * value) * list value * nat) :=
  [ (VStr "Kmeans - K=2", [VEstimator (KMeans 2 None)],
     [(VStr "value_of_k", VInt 2)], [VStr "silhoutte_score"], 1);
    (VStr "Kmeans - K=3", [VEstimator (KMeans 3 None)],
     [(VStr "value_of_k", VInt 3)],
     [VStr "silhoutte_score"; VStr "davies_bouldin_score"], 1);
    (VStr "DBSCAN", [VEstimator (DBSCAN (1 # 2)%Q 5)],
     [(VStr "min_samples", VInt 5); (VStr "eps", VFloat (1 # 2)%Q)],
     [VStr "silhoutte_score"], 1) ].



(** The claim that no operation of the notebook creates a process, read on
    the notebook's own statements: it makes no shell escape. *)
Definition no_process_started (tr : list entry) : bool :=
  negb (existsb shell_escape (calls tr)).

(** The names of the calls of a run of the notebook in which every call
    returns. *)
Definition block_kinds (scores logs : list string) : list string :=
  ["mlflow.start_run"; "__enter__"; "fit"; ".labels_"] ++ scores ++ logs ++
  ["[]"; "np.array"; "mlflow.sklearn.log_model"; "mlflow.end_run";
   "__exit__"].

Definition notebook_kinds : list string :=
  ["import"; "import"; "import"; "import"; "import";
   "load_iris"; ".data"; ".target";
   "mlflow.autolog"; "fit_predict"; "fit_predict";
   "mlflow.create_experiment"] ++
  block_kinds ["silhouette_score"]
              ["mlflow.log_param"; "mlflow.log_metric"] ++
  block_kinds ["silhouette_score"; "davies_bouldin_score"]
              ["mlflow.log_param"; "mlflow.log_metric"; "mlflow.log_metric"] ++
  block_kinds ["silhouette_score"]
              ["mlflow.log_param"; "mlflow.log_param"; "mlflow.log_metric"] ++
  ["!"].

Section Assertions.

Variable World : Type.
Variable lib : call -> World -> outcome value * World.

(** A script preserves [I] when it leaves a state satisfying [I] whenever it
    starts in one, whether it returns or raises. *)
Definition preserves (I : state World -> Prop) {A} (m : nb World A) : Prop :=
  forall st, I st -> I (snd (m st)).

(** Started in a state satisfying [I], the script ends in one satisfying
    [J], whether it returns or raises. *)
Definition leads (I J : state World -> Prop) {A} (m : nb World A) : Prop :=
  forall st, I st -> J (snd (m st)).

(** Every entry of the journal satisfies [P], and the script keeps it so. *)
Definition keeps (P : entry -> Prop) {A} (m : nb World A) : Prop :=
  preserves (fun st => Forall P (snd st)) m.

(** A script propagates exceptions: it only adds to the journal, and unless
    some [__exit__] swallowed an exception, it returns after calls that all
    returned and raises exactly what [failed] describes. *)
Definition propagates {A} (m : nb World A) : Prop :=
  forall st, exists new,
    snd (snd (m st)) = new ++ snd st /\
    (exits_pass new -> shape (fst (m st)) new).

(** [yields m Q]: the script only adds to the journal, and when every call
    it made returned, it returns a result that [Q] relates to the entries
    added (most recent first). *)
Definition yields {A} (m : nb World A) (Q : A -> list entry -> Prop) : Prop :=
  forall st, exists new,
    snd (snd (m st)) = new ++ snd st /\
    (clean new -> exists a, fst (m st) = Val a /\ Q a new).



(** [tracks kn k m Q]: started on a log of which [k] holds, the script
    returns in a log satisfying [Q], or raises in a log of which what is
    left of [k] holds. *)
Definition tracks (kn : knowledge) {A} (k : K kn) (m : nb World A)
  (Q : A -> list entry -> Prop) : Prop :=
  forall st, holds kn k (snd st) ->
    match m st with
    | (Val a, st') => Q a (snd st')
    | (Raise _, st') => holds kn (forget kn k) (snd st')
    end.

End Assertions.

(** ** The order of the calls *)

(** A journal up to and including its first raising call. *)
Fixpoint upto_first_raise (tr : list entry) : list entry :=
  match tr with
  | [] => []
  | en :: tr' => if raised en then [en] else en :: upto_first_raise tr'
  end.

(** The names of the calls of a journal. *)
Definition kinds (tr : list entry) : list string := map kind (calls tr).

(** ** What a call needs of the journal before it *)

(** What the journal must hold before a call ([before]), and what the entries
    of its current run must hold ([inrun]), for the call to be made. *)
Definition requirement : Type := call -> list entry -> list entry -> Prop.

Section Requirements.

Variable need : requirement.

(** Every call of a journal found what it needs in the entries before it. *)
Definition met (tr : list entry) : Prop :=
  forall pre c o post,
    tr = pre ++ (c, o) :: post -> need c pre (current_run (rev pre)).

(** The same, entry by entry on a log that is most recent first. *)
Fixpoint each_call (log : list entry) : Prop :=
  match log with
  | [] => True
  | en :: older => need (fst en) older (current_run older) /\ each_call older
  end.

(** A requirement that more entries still meet, and that asks nothing of
    [__enter__] and [__exit__]. *)
Definition admissible : Prop :=
  (forall c before inrun before' inrun',
     incl before before' -> incl inrun inrun' ->
     need c before inrun -> need c before' inrun') /\
  (forall mgr before inrun, need (ctx_enter mgr) before inrun) /\
  (forall mgr exc before inrun, need (ctx_exit mgr exc) before inrun).

(** Knowing entries of the log and of its current run, with every call so
    far having found what it needs. *)
Definition needs_kn : knowledge := {|
  K := (list entry * list entry)%type;
  holds := fun k log =>
    each_call log /\ incl (fst k) log /\ incl (snd k) (current_run log);
  after := fun c o k => ((c, o) :: fst k, inrun_after c o (snd k));
  ok := fun c k => need c (fst k) (snd k);
  forget := fun k => (fst k, [])
|}.

End Requirements.

(** A run is started in the experiment the notebook created: the
    [experiment_id] handed to [mlflow.start_run] is what
    [mlflow.create_experiment] returned for 'Clustering-Ejemplos'. *)
Definition in_created_experiment : requirement :=
  fun c before _ =>
    match c with
    | mlflow_start_run experiment_id _ =>
        In (mlflow_create_experiment (VStr "Clustering-Ejemplos"),
            Val experiment_id) before
    | _ => True
    end.

(** The calls that fit an estimator. *)
Definition is_fit (c : call) : bool :=
  match c with
  | fit _ _ => true
  | fit_predict _ _ => true
  | _ => false
  end.

(** An estimator is fitted after [mlflow.autolog()] returned. *)
Definition after_autolog : requirement :=
  fun c before _ =>
    is_fit c = true -> exists v, In (mlflow_autolog, Val v) before.

(** The features: [data] of what [load_iris] returned. *)
Definition iris_data (before : list entry) (X : value) : Prop :=
  exists db, In (load_iris, Val db) before /\
             In (getattr db "data", Val X) before.

(** The data a call works on: what is fitted, what is scored, and what the
    input example is taken from. *)
Definition data_argument (c : call) : option value :=
  match c with
  | fit _ X => Some X
  | fit_predict _ X => Some X
  | silhouette_score X _ => Some X
  | davies_bouldin_score X _ => Some X
  | getitem obj _ => Some obj
  | _ => None
  end.

(** Fits, scores and the input example are computed on the features. *)
Definition on_iris_data : requirement :=
  fun c before _ =>
    match data_argument c with
    | Some X => iris_data before X
    | None => True
    end.

(** The model logged is the one fitted in the current run, under the path
    'Clustering_Model', with the first row of the features, wrapped by
    [np.array], as input example. *)
Definition logs_fitted_model : requirement :=
  fun c before inrun =>
    match c with
    | mlflow_sklearn_log_model sk_model artifact_path input_example =>
        artifact_path = VStr "Clustering_Model" /\
        exists X est row,
          iris_data before X /\
          In (fit est X, Val sk_model) inrun /\
          In (getitem X (VInt 0), Val row) inrun /\
          In (np_array (VList [row]), Val input_example) inrun
    | _ => True
    end.

(** ** Calls that need a run *)

(** The calls that write to the active run or end it. *)
Definition needs_run (c : call) : bool :=
  match c with
  | mlflow_log_param _ _ => true
  | mlflow_log_metric _ _ => true
  | mlflow_sklearn_log_model _ _ _ => true
  | mlflow_end_run => true
  | _ => false
  end.

(** A named run is open: started by the notebook and not ended yet. *)
Definition named_run_open (open : run_state) : Prop :=
  exists name body, open = Some (name, body) /\ In name named_runs.

(** Every call of a journal that needs a run is made while a named run is
    open. *)
Definition logs_inside_runs (tr : list entry) : Prop :=
  forall pre c o post,
    tr = pre ++ (c, o) :: post -> needs_run c = true ->
    named_run_open (open_after None pre).

(** The same, entry by entry on a log that is most recent first. *)
Fixpoint logs_inside (log : list entry) : Prop :=
  match log with
  | [] => True
  | en :: older =>
      (needs_run (fst en) = true -> named_run_open (open_of older)) /\
      logs_inside older
  end.

(** ** The [with] blocks of a journal *)

(** Where a journal stands with respect to the [with] blocks: outside, with
    a manager that [mlflow.start_run] returned and that is not entered yet,
    or inside the block of a manager. *)
Inductive phase : Type :=
| Outside
| Started (mgr : value)
| Entered (mgr : value).

(** The phase a call leaves. *)
Definition phase_after (en : entry) (p : phase) : phase :=
  match en with
  | (mlflow_start_run _ _, Val mgr) => Started mgr
  | (mlflow_start_run _ _, Raise _) => Outside
  | (ctx_enter mgr, Val _) => Entered mgr
  | (ctx_enter _, Raise _) => Outside
  | (ctx_exit _ _, _) => Outside
  | _ => p
  end.

(** The phase in which a call may be made: a run is started outside any
    block, the manager entered is the one just returned, the manager exited
    is the one entered, and nothing comes between [mlflow.start_run] and
    [__enter__]. *)
Definition allowed (c : call) (p : phase) : Prop :=
  match c with
  | mlflow_start_run _ _ => p = Outside
  | ctx_enter mgr => p = Started mgr
  | ctx_exit mgr _ => p = Entered mgr
  | _ => forall mgr, p <> Started mgr
  end.

(** A journal, oldest entry first, keeps its [with] blocks bracketed from
    phase [p] on, and ends outside any block. *)
Fixpoint bracketed (p : phase) (tr : list entry) : Prop :=
  match tr with
  | [] => p = Outside
  | en :: tr' => allowed (fst en) p /\ bracketed (phase_after en p) tr'
  end.

(** The same on a log that is most recent first. *)
Fixpoint phase_of (log : list entry) : phase :=
  match log with
  | [] => Outside
  | en :: older => phase_after en (phase_of older)
  end.

Fixpoint brackets (log : list entry) : Prop :=
  match log with
  | [] => True
  | en :: older => allowed (fst en) (phase_of older) /\ brackets older
  end.

(** ** What [__exit__] is handed *)

(** An [__exit__] with no exception comes right after [mlflow.end_run()]
    returned; an [__exit__] with an exception comes right after the call
    that raised it. *)
Definition explains (exc : option value) (prev : entry) : Prop :=
  match exc with
  | None => fst prev = mlflow_end_run /\ exists v, snd prev = Val v
  | Some e => snd prev = Raise e
  end.

Definition exits_explained (tr : list entry) : Prop :=
  forall pre mgr exc o post,
    tr = pre ++ (ctx_exit mgr exc, o) :: post ->
    exists pre' prev, pre = pre' ++ [prev] /\ explains exc prev.

(** The same on a log that is most recent first. *)
Fixpoint exits_follow (log : list entry) : Prop :=
  match log with
  | [] => True
  | en :: older =>
      match fst en with
      | ctx_exit _ exc =>
          match older with
          | prev :: _ => explains exc prev
          | [] => False
          end
      | _ => True
      end /\ exits_follow older
  end.

Section MoreAssertions.

Variable World : Type.

(** [ordered m ks]: the script only adds to the journal; when every call it
    made returned, it returns and the calls it made are [ks]; and in any
    case the calls it made up to the first that raised are the first of
    [ks]. *)
Definition ordered {A} (m : nb World A) (ks : list string) : Prop :=
  forall st, exists new,
    snd (snd (m st)) = new ++ snd st /\
    (clean new -> (exists a, fst (m st) = Val a) /\ kinds (rev new) = ks) /\
    exists rest, ks = kinds (upto_first_raise (rev new)) ++ rest.

End MoreAssertions.

(** ** What a run logged *)

(** Name of a run with the parameters and the metrics it logged. *)
Definition scalars (r : run_record)
  : value * list (value * value) * list (value * value) :=
  (fst r, params (snd r), metrics (snd r)).

(** The answer to a call that draws no randomness is the answer the library
    gives to it in the world [w0]. *)
Definition answered_as (World : Type)
  (lib : call -> World -> outcome value * World) (w0 : World) (en : entry)
  : Prop :=
  draws_randomness (fst en) = false -> snd en = fst (lib (fst en) w0).

(** ** Calls outside the bodies of the runs *)

(** The run names handed to [mlflow.start_run], in order. *)
Definition run_name_of (c : call) : list value :=
  match c with
  | mlflow_start_run _ run_name => [run_name]
  | _ => []
  end.

Definition started_names (tr : list entry) : list value :=
  flat_map (fun en => run_name_of (fst en)) tr.

(** The calls that set the notebook up and the shell call that ends it:
    imports, [load_iris], [mlflow.autolog], [mlflow.create_experiment] and
    the shell escape. *)
Definition setup_of (c : call) : list string :=
  match c with
  | import_ _ _ => [kind c]
  | load_iris => [kind c]
  | mlflow_autolog => [kind c]
  | mlflow_create_experiment _ => [kind c]
  | system _ => [kind c]
  | _ => []
  end.

Definition setup_calls (tr : list entry) : list string :=
  flat_map (fun en => setup_of (fst en)) tr.

Definition notebook_setup : list string :=
  ["import"; "import"; "import"; "import"; "import"; "load_iris";
   "mlflow.autolog"; "mlflow.create_experiment"; "!"].

Section Projections.

Variable World : Type.
Variable T : Type.
Variable label : call -> list T.

(** What [label] keeps of a list of entries, oldest entry first. *)
Definition projection (tr : list entry) : list T :=
  flat_map (fun en => label (fst en)) tr.

(** [projects m ks]: the script only adds to the journal; what [label]
    keeps of the calls it made is [ks] when it returns, and the first of
    [ks] in any case. *)
Definition projects {A} (m : nb World A) (ks : list T) : Prop :=
  forall st, exists new,
    snd (snd (m st)) = new ++ snd st /\
    ((exists a, fst (m st) = Val a) -> projection (rev new) = ks) /\
    exists rest, ks = projection (rev new) ++ rest.

End Projections.

(** * Reasoning about scripts *)

(** ** State invariants *)

Section Invariants.

Variable World : Type.
Variable lib : call -> World -> outcome value * World.
Variable I : state World -> Prop.

Lemma preserves_ret {A} (a : A) : preserves I (ret (World := World) a).
Proof. intros st H. exact H. Qed.

Lemma preserves_bind {A B} (m : nb World A) (f : A -> nb World B) :
  preserves I m -> (forall a, preserves I (f a)) -> preserves I (bind m f).
Proof.
  intros Hm Hf st H. unfold bind.
  specialize (Hm st H). destruct (m st) as [[a | e] st']; cbn in *.
  - apply Hf, Hm.
  - exact Hm.
Qed.

Hypothesis enter_ok :
  forall mgr, preserves I (perform lib (ctx_enter mgr)).
Hypothesis exit_ok :
  forall mgr exc, preserves I (perform lib (ctx_exit mgr exc)).

Lemma preserves_with (EXPR : nb World value) (BLOCK : nb World unit) :
  preserves I EXPR -> preserves I BLOCK -> preserves I (with_ lib EXPR BLOCK).
Proof.
  intros HE HB. unfold with_.
  apply preserves_bind; [exact HE | intros mgr].
  apply preserves_bind; [apply enter_ok | intros _].
  intros st H. specialize (HB st H).
  destruct (BLOCK st) as [[[] | e] st']; cbn in HB.
  - apply (@preserves_bind value unit).
    + apply exit_ok.
    + intros _. apply preserves_ret.
    + exact HB.
  - pose proof (exit_ok mgr (Some e)) as Hx.
    specialize (Hx st' HB).
    destruct (perform lib (ctx_exit mgr (Some e)) st') as [[r | e'] st''];
      cbn in Hx; [destruct (truthy r) |]; exact Hx.
Qed.

(** A script that preserves [I], followed by one that leads from [I] to
    [J], leads from [I] to [J]. *)
Lemma leads_bind {A B} (J : state World -> Prop) (m : nb World A)
  (f : A -> nb World B) :
  (forall st, I st -> J st) ->
  preserves I m -> (forall a, leads I J (f a)) -> leads I J (bind m f).
Proof.
  intros HIJ Hm Hf st H. unfold bind.
  specialize (Hm st H). destruct (m st) as [[a | e] st']; cbn in *.
  - apply Hf, Hm.
  - apply HIJ, Hm.
Qed.

End Invariants.


(** ** Invariants of the journal, entry by entry *)

Section Journal.

Variable World : Type.
Variable lib : call -> World -> outcome value * World.
Variable P : entry -> Prop.

Lemma keeps_perform (c : call) :
  (forall o, P (c, o)) -> keeps P (perform lib c).
Proof.
  intros Hc st H. unfold perform.
  destruct (lib c (fst st)) as [o w']. cbn. constructor; auto.
Qed.

Lemma keeps_ret {A} (a : A) : keeps P (ret (World := World) a).
Proof. apply preserves_ret. Qed.

Lemma keeps_bind {A B} (m : nb World A) (f : A -> nb World B) :
  keeps P m -> (forall a, keeps P (f a)) -> keeps P (bind m f).
Proof. apply preserves_bind. Qed.

Lemma keeps_with (EXPR : nb World value) (BLOCK : nb World unit) :
  (forall mgr o, P (ctx_enter mgr, o)) ->
  (forall mgr exc o, P (ctx_exit mgr exc, o)) ->
  keeps P EXPR -> keeps P BLOCK -> keeps P (with_ lib EXPR BLOCK).
Proof.
  intros Hen Hex. apply preserves_with; intros; apply keeps_perform; auto.
Qed.

Lemma keeps_journal {A} (m : nb World A) (w : World) :
  keeps P m -> Forall P (journal m w).
Proof.
  intros Hm. unfold journal, run.
  specialize (Hm (w, []) (Forall_nil P)).
  destruct (m (w, [])) as [o [w' log]]. cbn in *.
  apply Forall_rev, Hm.
Qed.

End Journal.

(** Walks a script built from [ret], [bind], [perform] and [with_], leaving
    one goal per call: the property of its journal entry. *)
Ltac walk :=
  repeat first
    [ apply keeps_ret
    | apply keeps_perform; intros ?
    | apply keeps_with; [intros ? ? | intros ? ? ? | | ]
    | apply keeps_bind; [| intros ?]
    | match goal with
      | |- keeps _ (match ?g with _ => _ end) => destruct g as [[? ?] ?]
      end ].

Ltac unfold_cells :=
  unfold notebook, void, cell_1, cell_3, cell_5, cell_6, cell_8,
    cell_9, cell_10, cell_12.

(** Membership in an explicit list, possibly fixing unknowns. *)
Ltac find_in := cbn; solve [repeat first [left; reflexivity | right]].

(** Every call the notebook makes is a call of its script. *)
Lemma notebook_in_script World
  (lib : call -> World -> outcome value * World) (w : World) :
  Forall (fun en => in_script (fst en)) (journal (notebook lib) w).
Proof.
  apply keeps_journal. unfold_cells. walk.
  all: cbn; first [exact I | reflexivity | find_in].
Qed.

(** ** Exceptions: what a script adds to the journal, and how it ends *)

(** Entries are read most recent first here, as the state holds them. *)

Lemma clean_app new1 new2 : clean new2 -> clean new1 -> clean (new2 ++ new1).
Proof. intros H2 H1. apply Forall_app. split; assumption. Qed.

Lemma failed_app new1 new2 e :
  failed new2 e -> clean new1 -> failed (new2 ++ new1) e.
Proof.
  intros H2 H1. induction H2; cbn.
  - apply failed_here. apply clean_app; assumption.
  - apply failed_exit_pass. exact IHfailed.
  - apply failed_exit_raise. exact IHfailed.
Qed.

Lemma exits_pass_app new1 new2 :
  exits_pass (new2 ++ new1) -> exits_pass new2 /\ exits_pass new1.
Proof.
  intros H. split; intros mgr exc r Hin; apply (H mgr exc r);
    apply in_or_app; [left | right]; exact Hin.
Qed.

Section Propagation.

Variable World : Type.
Variable lib : call -> World -> outcome value * World.

Lemma propagates_ret {A} (a : A) : propagates (ret (World := World) a).
Proof.
  intros st. exists []. split; [reflexivity | intros _; constructor].
Qed.

Lemma propagates_perform (c : call) : propagates (perform lib c).
Proof.
  intros st. unfold perform. destruct (lib c (fst st)) as [[v | e] w']; cbn.
  - exists [(c, Val v)]. split; [reflexivity | intros _].
    constructor; [reflexivity | constructor].
  - exists [(c, Raise e)]. split; [reflexivity | intros _].
    apply failed_here. constructor.
Qed.

Lemma propagates_bind {A B} (m : nb World A) (f : A -> nb World B) :
  propagates m -> (forall a, propagates (f a)) -> propagates (bind m f).
Proof.
  intros Hm Hf st. unfold bind.
  destruct (Hm st) as [new1 [E1 S1]].
  destruct (m st) as [[a | e] st1]; cbn in *.
  - destruct (Hf a st1) as [new2 [E2 S2]].
    exists (new2 ++ new1). split.
    + rewrite E2, E1. apply app_assoc.
    + intros Hx. apply exits_pass_app in Hx. destruct Hx as [Hx2 Hx1].
      specialize (S1 Hx1). specialize (S2 Hx2).
      destruct (fst (f a st1)); cbn in *.
      * apply clean_app; assumption.
      * apply failed_app; assumption.
  - exists new1. split; assumption.
Qed.

Lemma propagates_with (EXPR : nb World value) (BLOCK : nb World unit) :
  propagates EXPR -> propagates BLOCK -> propagates (with_ lib EXPR BLOCK).
Proof.
  intros HE HB. unfold with_.
  apply propagates_bind; [exact HE | intros mgr].
  apply propagates_bind; [apply propagates_perform | intros _].
  intros st. destruct (HB st) as [newB [EB SB]].
  destruct (BLOCK st) as [[[] | e] st1]; cbn in *.
  - assert (HX : propagates (bind (perform lib (ctx_exit mgr None))
                                  (fun _ => ret tt)))
      by (apply propagates_bind;
          [apply propagates_perform | intros; apply propagates_ret]).
    destruct (HX st1) as [newX [EX SX]].
    exists (newX ++ newB). split.
    + rewrite EX, EB. apply app_assoc.
    + intros Hx. apply exits_pass_app in Hx. destruct Hx as [Hx2 Hx1].
      specialize (SB Hx1). specialize (SX Hx2).
      destruct (fst (bind (perform lib (ctx_exit mgr None))
                          (fun _ => ret tt) st1)); cbn in *.
      * apply clean_app; assumption.
      * apply failed_app; assumption.
  - unfold perform.
    destruct (lib (ctx_exit mgr (Some e)) (fst st1)) as [[r | e'] w']; cbn.
    + exists ((ctx_exit mgr (Some e), Val r) :: newB). split.
      * rewrite EB. destruct (truthy r); reflexivity.
      * intros Hx.
        assert (Hr : truthy r = false)
          by (apply (Hx mgr e r); left; reflexivity).
        rewrite Hr. cbn. apply failed_exit_pass. apply SB.
        intros m' x' r' Hin. apply (Hx m' x' r'). right. exact Hin.
    + exists ((ctx_exit mgr (Some e), Raise e') :: newB). split.
      * rewrite EB. reflexivity.
      * intros Hx. apply failed_exit_raise. apply SB.
        intros m' x' r' Hin. apply (Hx m' x' r'). right. exact Hin.
Qed.

End Propagation.

(** The same facts read oldest entry first, as [journal] gives them. *)

Lemma last_raised_app tr1 tr2 :
  last_raised (tr1 ++ tr2) =
  match last_raised tr2 with
  | Some e => Some e
  | None => last_raised tr1
  end.
Proof.
  induction tr1 as [| [c [v | e]] tr1 IH]; cbn.
  - destruct (last_raised tr2); reflexivity.
  - exact IH.
  - rewrite IH. destruct (last_raised tr2), (last_raised tr1); reflexivity.
Qed.

Lemma after_first_raise_app tr1 tr2 :
  after_first_raise (tr1 ++ tr2) =
  if existsb raised tr1 then after_first_raise tr1 ++ tr2
  else after_first_raise tr2.
Proof.
  induction tr1 as [| en tr1 IH]; cbn.
  - reflexivity.
  - destruct (raised en); cbn; [reflexivity | exact IH].
Qed.

Lemma clean_no_raise new :
  clean new -> existsb raised (rev new) = false /\ last_raised (rev new) = None.
Proof.
  intros H. induction H as [| [c o] t Hx Ht [IH1 IH2]]; cbn.
  - split; reflexivity.
  - rewrite existsb_app, last_raised_app, IH1, IH2. cbn.
    unfold raised in Hx. cbn in Hx.
    destruct o; [split; reflexivity | discriminate].
Qed.

Lemma failed_chronological new e :
  failed new e ->
  existsb raised (rev new) = true /\
  last_raised (rev new) = Some e /\
  Forall is_exit (after_first_raise (rev new)).
Proof.
  intros H. induction H as [c e t Ht | mgr e r t H [IH1 [IH2 IH3]]
                            | mgr e e' t H [IH1 [IH2 IH3]]]; cbn.
  - destruct (clean_no_raise Ht) as [E1 E2].
    rewrite existsb_app, last_raised_app, after_first_raise_app, E1. cbn.
    repeat split. constructor.
  - rewrite existsb_app, last_raised_app, after_first_raise_app, IH1. cbn.
    repeat split; [exact IH2 |].
    apply Forall_app. split; [exact IH3 |].
    constructor; [reflexivity | constructor].
  - rewrite existsb_app, last_raised_app, after_first_raise_app, IH1. cbn.
    repeat split.
    apply Forall_app. split; [exact IH3 |].
    constructor; [reflexivity | constructor].
Qed.

Lemma after_first_raise_clean tr :
  existsb raised tr = false -> after_first_raise tr = [].
Proof.
  induction tr as [| en tr IH]; cbn; [reflexivity |].
  destruct (raised en); cbn; [discriminate | exact IH].
Qed.

Lemma no_raise_not_in tr c e :
  existsb raised tr = false -> ~ In (c, Raise e) tr.
Proof.
  intros H Hin.
  assert (Hx : existsb raised tr = true)
    by (apply existsb_exists; exists (c, Raise e); split;
        [exact Hin | reflexivity]).
  rewrite H in Hx. discriminate.
Qed.

Lemma exits_pass_rev tr : exits_pass (rev tr) -> exits_pass tr.
Proof.
  intros H mgr exc r Hin. apply (H mgr exc r). apply in_rev in Hin. exact Hin.
Qed.

(** Walks a script with the rules of [propagates]. *)
Ltac walk_propagates :=
  repeat first
    [ apply propagates_ret
    | apply propagates_perform
    | apply propagates_with
    | apply propagates_bind; [| intros ?] ].

Lemma cells_propagate World (lib : call -> World -> outcome value * World)
  (features exp_id : value) (cell : nb World unit) :
  In cell (code_cells lib features exp_id) -> propagates cell.
Proof.
  unfold code_cells. cbn.
  intros [<- | [<- | [<- | [<- | [<- | [<- | [<- | [<- | []]]]]]]]];
    unfold_cells; walk_propagates.
Qed.

(** ** The calls of a journal *)

Lemma calls_app (tr1 tr2 : list entry) :
  calls (tr1 ++ tr2) = calls tr1 ++ calls tr2.
Proof. apply map_app. Qed.

(** ** Two executions side by side *)

Section Agreement.

Variable World : Type.
Variable lib : call -> World -> outcome value * World.
Hypothesis contract : seeded_deterministic lib.









End Agreement.

(** ** Executions in which every call returns *)

Section Yields.

Variable World : Type.
Variable lib : call -> World -> outcome value * World.

Lemma yields_ret {A} (a : A) :
  yields (ret (World := World) a) (fun a' new => a' = a /\ new = []).
Proof.
  intros st. exists []. split; [reflexivity |].
  intros _. exists a. repeat split.
Qed.

Lemma yields_perform (c : call) :
  yields (perform lib c) (fun v new => new = [(c, Val v)]).
Proof.
  intros st. unfold perform. destruct (lib c (fst st)) as [[v | e] w']; cbn.
  - exists [(c, Val v)]. split; [reflexivity |].
    intros _. exists v. split; reflexivity.
  - exists [(c, Raise e)]. split; [reflexivity |].
    intros H. inversion H as [| x l Hx Hl]. discriminate Hx.
Qed.

Lemma yields_bind {A B} (m : nb World A) (f : A -> nb World B)
  (Q1 : A -> list entry -> Prop) (Q2 : A -> B -> list entry -> Prop) :
  yields m Q1 -> (forall a, yields (f a) (Q2 a)) ->
  yields (bind m f)
    (fun b new => exists a new1 new2,
                    new = new2 ++ new1 /\ Q1 a new1 /\ Q2 a b new2).
Proof.
  intros Hm Hf st. unfold bind.
  destruct (Hm st) as [new1 [E1 S1]].
  destruct (m st) as [[a | e] st1]; cbn in *.
  - destruct (Hf a st1) as [new2 [E2 S2]].
    exists (new2 ++ new1). split.
    + rewrite E2, E1. apply app_assoc.
    + intros Hc. apply Forall_app in Hc. destruct Hc as [Hc2 Hc1].
      destruct (S1 Hc1) as [a' [Ea Ha]]. injection Ea as <-.
      destruct (S2 Hc2) as [b [Eb Hb]].
      exists b. split; [exact Eb |].
      exists a, new1, new2. repeat split; assumption.
  - exists new1. split; [exact E1 |].
    intros Hc. destruct (S1 Hc) as [a' [Ea _]]. discriminate Ea.
Qed.

Lemma yields_bind3 {A B C D} (m : nb World (A * B * C))
  (f : A * B * C -> nb World D)
  (Q1 : A * B * C -> list entry -> Prop)
  (Q2 : A -> B -> C -> D -> list entry -> Prop) :
  yields m Q1 -> (forall x y z, yields (f (x, y, z)) (Q2 x y z)) ->
  yields (bind m f)
    (fun b new => exists x y z new1 new2,
                    new = new2 ++ new1 /\ Q1 (x, y, z) new1 /\
                    Q2 x y z b new2).
Proof.
  intros Hm Hf.
  pose proof (@yields_bind _ _ m f Q1
                (fun a => let '(x, y, z) := a in Q2 x y z) Hm) as H.
  assert (Hf' : forall a, yields (f a) (let '(x, y, z) := a in Q2 x y z))
    by (intros [[x y] z]; apply Hf).
  specialize (H Hf'). intros st. destruct (H st) as [new [E S]].
  exists new. split; [exact E |].
  intros Hc. destruct (S Hc) as [b [Eb [[[x y] z] [new1 [new2 Hq]]]]].
  exists b. split; [exact Eb |]. exists x, y, z, new1, new2. exact Hq.
Qed.

Lemma yields_with (EXPR : nb World value) (BLOCK : nb World unit)
  (Q1 : value -> list entry -> Prop) (Q2 : unit -> list entry -> Prop) :
  yields EXPR Q1 -> yields BLOCK Q2 ->
  yields (with_ lib EXPR BLOCK)
    (fun _ new => exists mgr v r new1 new2,
                    new = (ctx_exit mgr None, Val r) :: new2 ++
                          (ctx_enter mgr, Val v) :: new1 /\
                    Q1 mgr new1 /\ Q2 tt new2).
Proof.
  intros HE HB st. unfold with_, bind.
  destruct (HE st) as [new1 [E1 S1]].
  destruct (EXPR st) as [[mgr | e] [w0 log1]]; cbn [fst snd] in *.
  2:{ exists new1. split; [exact E1 |].
      intros Hc. destruct (S1 Hc) as [a' [Ea _]]. discriminate Ea. }
  subst log1. unfold perform; cbn [fst snd].
  destruct (lib (ctx_enter mgr) w0) as [[v | e] w1]; cbn [fst snd].
  2:{ exists ((ctx_enter mgr, Raise e) :: new1). split; [reflexivity |].
      intros Hc. inversion Hc as [| x l Hx Hl]. discriminate Hx. }
  destruct (HB (w1, (ctx_enter mgr, Val v) :: new1 ++ snd st))
    as [new2 [E2 S2]].
  destruct (BLOCK (w1, (ctx_enter mgr, Val v) :: new1 ++ snd st))
    as [[[] | e] [w2 log2]]; cbn [fst snd] in *; subst log2.
  - destruct (lib (ctx_exit mgr None) w2) as [[r | e] w3]; cbn [fst snd].
    + exists ((ctx_exit mgr None, Val r)
              :: new2 ++ (ctx_enter mgr, Val v) :: new1).
      split; [cbn; rewrite <- app_assoc; reflexivity |].
      intros Hc. inversion Hc as [| x l Hx Hl]. subst.
      apply Forall_app in Hl. destruct Hl as [Hc2 Hc1].
      inversion Hc1 as [| x l Hx1 Hl1]. subst.
      destruct (S1 Hl1) as [a' [Ea Ha]]. injection Ea as <-.
      destruct (S2 Hc2) as [[] [_ Hb]].
      exists tt. split; [reflexivity |].
      exists mgr, v, r, new1, new2. repeat split; assumption.
    + exists ((ctx_exit mgr None, Raise e)
              :: new2 ++ (ctx_enter mgr, Val v) :: new1).
      split; [cbn; rewrite <- app_assoc; reflexivity |].
      intros Hc. inversion Hc as [| x l Hx Hl]. discriminate Hx.
  - destruct (lib (ctx_exit mgr (Some e)) w2) as [[r | e'] w3];
      cbn [fst snd].
    + exists ((ctx_exit mgr (Some e), Val r)
              :: new2 ++ (ctx_enter mgr, Val v) :: new1).
      split; [destruct (truthy r); cbn; rewrite <- app_assoc; reflexivity |].
      intros Hc. inversion Hc as [| x l Hx Hl]. subst.
      apply Forall_app in Hl. destruct Hl as [Hc2 _].
      destruct (S2 Hc2) as [a' [Ea _]]. discriminate Ea.
    + exists ((ctx_exit mgr (Some e), Raise e')
              :: new2 ++ (ctx_enter mgr, Val v) :: new1).
      split; [cbn; rewrite <- app_assoc; reflexivity |].
      intros Hc. inversion Hc as [| x l Hx Hl]. discriminate Hx.
Qed.

Lemma yields_journal {A} (m : nb World A) (Q : A -> list entry -> Prop)
  (w : World) :
  yields m Q -> clean (journal m w) ->
  exists a new, result m w = Val a /\ journal m w = rev new /\ Q a new.
Proof.
  intros Hm Hc. unfold journal, result, run in *.
  destruct (Hm (w, [])) as [new [E S]].
  destruct (m (w, [])) as [o [w' log]]. cbn in *.
  rewrite app_nil_r in E. subst log.
  assert (Hn : clean new).
  { apply Forall_rev in Hc. rewrite rev_involutive in Hc. exact Hc. }
  destruct (S Hn) as [a [Ea Ha]].
  exists a, new. repeat split; assumption.
Qed.

End Yields.

Ltac walk_yields :=
  repeat first
    [ eapply yields_ret
    | eapply yields_perform
    | eapply yields_with
    | eapply yields_bind3; [| intros ? ? ?; cbv beta iota]
    | eapply yields_bind; [| intros ?] ].


(** An execution in which every call returned is the execution against the
    oracle that gives the same answers. *)
Lemma clean_run World (lib : call -> World -> outcome value * World)
  (w : World) :
  clean (journal (notebook lib) w) ->
  result (notebook lib) w = Val tt /\
  exists ans, journal (notebook lib) w = journal (notebook (oracle ans)) 0.
Proof.
  intros Hc.
  assert (exists Q, yields (notebook lib) Q /\
            forall a new, Q a new ->
              rev new = journal (notebook (oracle (answers (rev new)))) 0)
    as [Q [HQ Hrun]].
  { eexists. split.
    - unfold_cells. walk_yields.
    - intros a new H. cbv beta in H.
      repeat match goal with
             | H : exists _, _ |- _ => destruct H
             | H : _ /\ _ |- _ => destruct H
             | H : (_, _, _) = (_, _, _) |- _ => injection H as -> -> ->
             end.
      subst. vm_compute. reflexivity. }
  destruct (yields_journal w HQ Hc) as [[] [new [Er [Ej H]]]].
  split; [exact Er |].
  exists (answers (rev new)). rewrite Ej. apply (Hrun tt), H.
Qed.

(** ** Rules for a script that carries knowledge *)

Section Knowledge.

Variable World : Type.
Variable lib : call -> World -> outcome value * World.
Variable kn : knowledge.
Hypothesis laws : lawful kn.

Lemma tracks_ret {A} (k : K kn) (a : A) (Q : A -> list entry -> Prop) :
  (forall log, holds kn k log -> Q a log) ->
  tracks kn k (ret (World := World) a) Q.
Proof. intros H st Hk. apply H, Hk. Qed.

Lemma tracks_perform (k : K kn) (c : call)
  (Q : value -> list entry -> Prop) :
  ok kn c k ->
  (forall v log, holds kn (after kn c (Val v) k) log -> Q v log) ->
  tracks kn k (perform lib c) Q.
Proof.
  destruct laws as (Lstep & Lraise & _).
  intros Hj HQ [w log] Hk. unfold perform. cbn [fst snd] in *.
  destruct (lib c w) as [[v | e] w']; cbn [fst snd].
  - apply HQ. apply Lstep; assumption.
  - eapply Lraise. apply Lstep; eassumption.
Qed.

Lemma tracks_bind {A B} (k : K kn) (m : nb World A) (f : A -> nb World B)
  (k' : A -> K kn) (Q : B -> list entry -> Prop) :
  (forall a log, holds kn (forget kn (k' a)) log ->
                 holds kn (forget kn k) log) ->
  tracks kn k m (fun a => holds kn (k' a)) ->
  (forall a, tracks kn (k' a) (f a) Q) ->
  tracks kn k (bind m f) Q.
Proof.
  intros Hi Hm Hf st Hk. unfold bind. specialize (Hm st Hk).
  destruct (m st) as [[a | e] st1].
  - specialize (Hf a st1 Hm). destruct (f a st1) as [[b | e] st2].
    + exact Hf.
    + eapply Hi. exact Hf.
  - exact Hm.
Qed.

Lemma tracks_bind_perform {B} (k : K kn) (c : call)
  (f : value -> nb World B) (Q : B -> list entry -> Prop) :
  ok kn c k ->
  (forall v, tracks kn (after kn c (Val v) k) (f v) Q) ->
  tracks kn k (bind (perform lib c) f) Q.
Proof.
  intros Hj Hf.
  apply tracks_bind with (k' := fun v => after kn c (Val v) k).
  - destruct laws as (_ & _ & Lforget & _). intros v log. apply Lforget.
  - apply tracks_perform; [exact Hj | auto].
  - exact Hf.
Qed.

(** After a block, the [__exit__] call keeps what is left of the
    knowledge. *)
Lemma holds_after_exit (k : K kn) mgr exc (st1 : state World) :
  holds kn (forget kn k) (snd st1) ->
  holds kn (forget kn k) (snd (snd (perform lib (ctx_exit mgr exc) st1))).
Proof.
  destruct laws as (_ & _ & _ & _ & Lexit & _).
  destruct st1 as [w1 log1]. intros Hk. unfold perform. cbn [fst snd] in *.
  destruct (lib (ctx_exit mgr exc) w1) as [o w2]. cbn [snd].
  apply Lexit. exact Hk.
Qed.

Lemma tracks_with (k : K kn) (c : call) (BLOCK : nb World unit) :
  ok kn c k ->
  (forall mgr v,
     tracks kn (after kn (ctx_enter mgr) (Val v) (after kn c (Val mgr) k))
       BLOCK
       (fun _ => holds kn (forget kn (after kn (ctx_enter mgr) (Val v)
                                         (after kn c (Val mgr) k))))) ->
  tracks kn k (with_ lib (perform lib c) BLOCK)
    (fun _ => holds kn (forget kn k)).
Proof.
  pose proof laws as (_ & _ & Lforget & _ & _ & Lenter & _).
  intros Hj HB. unfold with_.
  apply tracks_bind_perform; [exact Hj | intros mgr].
  apply tracks_bind_perform; [apply Lenter | intros v].
  intros st Hk. specialize (HB mgr v st Hk).
  set (k2 := after kn (ctx_enter mgr) (Val v) (after kn c (Val mgr) k)) in *.
  assert (Hw : forall log, holds kn (forget kn k2) log ->
                           holds kn (forget kn k) log).
  { intros log H. eapply Lforget, Lforget. exact H. }
  destruct (BLOCK st) as [[[] | e] st1].
  - unfold bind.
    pose proof (holds_after_exit k2 mgr None st1 HB) as Hx.
    destruct (perform lib (ctx_exit mgr None) st1) as [[r | e'] st2];
      cbn in *.
    + apply Hw, Hx.
    + exact Hx.
  - pose proof (holds_after_exit k2 mgr (Some e) st1 HB) as Hx.
    destruct (perform lib (ctx_exit mgr (Some e)) st1) as [[r | e'] st2];
      cbn in *.
    + destruct (truthy r); cbn.
      * apply Hw, Hx.
      * exact Hx.
    + exact Hx.
Qed.

Lemma tracks_assoc {A B C} (k : K kn) (m : nb World A)
  (f : A -> nb World B) (g : B -> nb World C)
  (Q : C -> list entry -> Prop) :
  tracks kn k (bind m (fun a => bind (f a) g)) Q ->
  tracks kn k (bind (bind m f) g) Q.
Proof.
  intros H st Hk. specialize (H st Hk). unfold bind in *.
  destruct (m st) as [[a | e] st1]; exact H.
Qed.

Lemma tracks_ret_bind {A B} (k : K kn) (a : A) (f : A -> nb World B)
  (Q : B -> list entry -> Prop) :
  tracks kn k (f a) Q -> tracks kn k (bind (ret a) f) Q.
Proof. intros H st Hk. exact (H st Hk). Qed.

Lemma tracks_with_bind {B} (k : K kn) (c : call) (BLOCK : nb World unit)
  (f : unit -> nb World B) (Q : B -> list entry -> Prop) :
  ok kn c k ->
  (forall mgr v,
     tracks kn (after kn (ctx_enter mgr) (Val v) (after kn c (Val mgr) k))
       BLOCK
       (fun _ => holds kn (forget kn (after kn (ctx_enter mgr) (Val v)
                                         (after kn c (Val mgr) k))))) ->
  tracks kn (forget kn k) (f tt) Q ->
  tracks kn k (bind (with_ lib (perform lib c) BLOCK) f) Q.
Proof.
  intros Hj HB Hf.
  apply tracks_bind with (k' := fun _ => forget kn k).
  - destruct laws as (_ & _ & _ & Lidem & _). intros _ log. apply Lidem.
  - apply tracks_with; assumption.
  - intros []. exact Hf.
Qed.

End Knowledge.

(** Walks a script with the rules of [tracks]; [laws] proves the laws of the
    knowledge and [oblige] what a call needs. *)
Ltac walk_tracks laws oblige :=
  repeat
    (cbv beta iota;
     lazymatch goal with
     | |- tracks _ _ (bind (with_ _ (perform _ _) _) _) _ =>
         apply (@tracks_with_bind _ _ _ laws); [oblige | intros ? ? | ]
     | |- tracks _ _ (with_ _ (perform _ _) _) _ =>
         apply (@tracks_with _ _ _ laws); [oblige | intros ? ?]
     | |- tracks _ _ (bind (ret _) _) _ => apply tracks_ret_bind
     | |- tracks _ _ (bind (perform _ _) _) _ =>
         apply (@tracks_bind_perform _ _ _ laws); [oblige | intros ?]
     | |- tracks _ _ (bind (bind _ _) _) _ => apply tracks_assoc
     | |- tracks _ _ (ret _) _ => apply tracks_ret; intros ? ?
     | |- tracks _ _ (perform _ _) _ =>
         apply (@tracks_perform _ _ _ laws); [oblige | intros ? ? ?]
     end).

(** ** Where logged metrics come from *)

Lemma from_library_incl before inrun before' inrun' key v :
  incl before before' -> incl inrun inrun' ->
  from_library before inrun key v -> from_library before' inrun' key v.
Proof.
  intros Hb Hi
    (db & X & est & model & labels & score & H1 & H2 & H3 & H4 & H5 & H6).
  exists db, X, est, model, labels, score.
  repeat split; auto.
Qed.

Lemma knows_provenance all inrun log : knows all inrun log -> provenance log.
Proof. intros [H _]. exact H. Qed.

Lemma knows_weaken all inrun all' log :
  incl all' all -> knows all inrun log -> knows all' [] log.
Proof.
  intros Ha (Hp & Hall & _). repeat split.
  - exact Hp.
  - intros x Hx. apply Hall, Ha, Hx.
  - intros x [].
Qed.

Lemma knows_step c o all inrun log :
  justifiable c all inrun -> knows all inrun log ->
  knows ((c, o) :: all) (inrun_after c o inrun) ((c, o) :: log).
Proof.
  intros Hj (Hp & Hall & Hin). repeat split.
  - destruct c; cbn in *; try exact I.
    eapply from_library_incl; eassumption.
  - exact Hp.
  - intros x [<- | Hx]; [left; reflexivity | right; apply Hall, Hx].
  - destruct c; cbn;
      try (intros x [<- | Hx]; [left; reflexivity | right; apply Hin, Hx]).
    intros x [].
Qed.

Lemma provenance_lawful : lawful provenance_kn.
Proof.
  unfold lawful. cbn. repeat apply conj.
  - intros c o [all inrun] log. cbn. apply knows_step.
  - intros c o [all inrun] log. cbn. apply knows_weaken.
    apply incl_tl, incl_refl.
  - intros c o [all inrun] log. cbn. apply knows_weaken.
    apply incl_tl, incl_refl.
  - intros [all inrun] log. cbn. auto.
  - intros mgr exc o [all inrun] log Hk. cbn in *.
    eapply knows_weaken;
      [| apply (@knows_step (ctx_exit mgr exc) o all [] log I Hk)].
    apply incl_tl, incl_refl.
  - intros; exact I.
  - intros; exact I.
Qed.

(** A logged metric is justified by finding its entries in what is
    known. *)
Ltac justify :=
  cbn;
  first [ exact I
        | do 6 eexists; repeat split; find_in ].

Ltac known :=
  match goal with
  | H : knows _ _ ?log |- knows _ [] ?log =>
      eapply knows_weaken; [| exact H];
      repeat (apply incl_cons; [find_in |]); apply incl_nil_l
  end.

Lemma provenance_app log1 log2 : provenance (log1 ++ log2) -> provenance log2.
Proof.
  induction log1 as [| en log1 IH]; cbn; [auto | intros [_ H]; auto].
Qed.

Lemma provenance_journal tr :
  provenance (rev tr) -> each_metric_from_library tr.
Proof.
  intros H pre key v o post E. subst tr.
  rewrite rev_app_distr in H. cbn in H. rewrite <- app_assoc in H.
  apply provenance_app in H. cbn in H. destruct H as [H _].
  unfold justified in H. cbn in H.
  eapply from_library_incl; [| apply incl_refl | exact H].
  intros x Hx. apply in_rev. exact Hx.
Qed.

(** Every metric the notebook logs comes from the library, whatever the
    library answers. *)
Lemma notebook_provenance World
  (lib : call -> World -> outcome value * World) (w : World) :
  each_metric_from_library (journal (notebook lib) w).
Proof.
  assert (H : tracks provenance_kn ([], []) (notebook lib)
                (fun _ log => provenance log)).
  { unfold_cells. walk_tracks provenance_lawful justify.
    all: cbn in *; first [known | eapply knows_provenance; eassumption]. }
  apply provenance_journal. unfold journal, run.
  assert (H0 : knows [] [] (snd (w, @nil entry)))
    by (repeat split; intros x []).
  specialize (H (w, []) H0).
  destruct (notebook lib (w, [])) as [[[] | e] [w' log]]; cbn in *.
  - rewrite rev_involutive. exact H.
  - rewrite rev_involutive. eapply knows_provenance. exact H.
Qed.

(** ** The runs the notebook ends *)

Lemma runs_from_cons (open : run_state) (en : entry) (tr : list entry) :
  runs_from open (en :: tr) =
  step_ended en open ++ runs_from (step_open en open) tr.
Proof.
  destruct en as [c [v | e]], open as [[nm body] |]; destruct c;
    reflexivity.
Qed.

Lemma runs_from_app (open : run_state) (tr1 tr2 : list entry) :
  runs_from open (tr1 ++ tr2) =
  runs_from open tr1 ++ runs_from (open_after open tr1) tr2.
Proof.
  revert open. induction tr1 as [| en tr1 IH]; intros open.
  - reflexivity.
  - rewrite <- app_comm_cons, !runs_from_cons, IH, app_assoc. reflexivity.
Qed.

Lemma open_after_app (open : run_state) (tr1 tr2 : list entry) :
  open_after open (tr1 ++ tr2) = open_after (open_after open tr1) tr2.
Proof. apply fold_left_app. Qed.

Lemma runs_from_nil (open : run_state) : runs_from open [] = [].
Proof. reflexivity. Qed.

Lemma ended_of_journal (log : list entry) :
  ended_runs (rev log) = ended_of log /\
  open_after None (rev log) = open_of log.
Proof.
  unfold ended_runs. induction log as [| en older [IH1 IH2]].
  - split; reflexivity.
  - cbn [rev open_of ended_of]. split.
    + rewrite runs_from_app, IH1, runs_from_cons, runs_from_nil, app_nil_r.
      do 2 f_equal. exact IH2.
    + rewrite open_after_app. cbn. f_equal. exact IH2.
Qed.

Lemma runs_lawful : lawful runs_kn.
Proof.
  unfold lawful. cbn. repeat apply conj.
  - intros c o k log Hok [Hended Hopen]. cbn [ended_of open_of].
    destruct k as [open |].
    + subst open. split; [| reflexivity].
      apply Forall_app. split; [exact Hended |].
      destruct c; cbn in *; try apply Forall_nil.
      destruct o as [v | e], (open_of log) as [[nm body] |]; cbn in *;
        first [ apply Forall_nil
              | apply Forall_cons; [exact Hok | apply Forall_nil] ].
    + split.
      * apply Forall_app. split; [exact Hended |].
        destruct c; cbn in *; try apply Forall_nil.
        contradiction.
      * destruct c, o; first [exact I | reflexivity | contradiction].
  - intros c o k log [H _]. split; [exact H | exact I].
  - intros c o k log H. exact H.
  - intros k log H. exact H.
  - intros mgr exc o k log [H _]. split; [| exact I].
    cbn. rewrite app_nil_r. exact H.
  - intros; exact I.
  - intros; exact I.
Qed.

(** A run that ends is checked on its entries. *)
Ltac check_run :=
  cbn;
  first [ exact I
        | repeat apply conj;
          first [ find_in
                | cbn; lia
                | reflexivity
                | do 3 eexists; split; find_in ] ].

(** Whatever the library answers, every run the notebook ends is one of the
    named runs, complete. *)
Lemma notebook_runs_ok World
  (lib : call -> World -> outcome value * World) (w : World) :
  Forall run_ok (ended_runs (journal (notebook lib) w)).
Proof.
  assert (H : tracks runs_kn (Some None) (notebook lib)
                (fun _ log => Forall run_ok (ended_of log))).
  { unfold_cells. walk_tracks runs_lawful check_run.
    all: cbn in *; tauto. }
  unfold journal, run.
  assert (H0 : holds runs_kn (Some None) (snd (w, @nil entry)))
    by (split; [constructor | reflexivity]).
  specialize (H (w, []) H0).
  destruct (notebook lib (w, [])) as [[[] | e] [w' log]];
    cbn [fst snd holds runs_kn forget] in *;
    destruct (ended_of_journal log) as [E _]; rewrite E.
  - exact H.
  - exact (proj1 H).
Qed.

(** ** The shell escape *)

Lemma escape_free_last (log : list entry) : escape_free log -> escape_last log.
Proof.
  intros H. destruct log as [| en older]; cbn; [exact I |].
  inversion H; assumption.
Qed.

Lemma notebook_escape_last World
  (lib : call -> World -> outcome value * World) (w : World) :
  Forall (fun en => shell_escape (fst en) = false)
         (removelast (journal (notebook lib) w)).
Proof.
  assert (H : leads (fun st => escape_free (snd st))
                    (fun st => escape_last (snd st)) (notebook lib)).
  { unfold notebook.
    repeat first
      [ apply leads_bind;
        [ intros ?; apply escape_free_last
        | match goal with
          | |- preserves _ ?m =>
              change (keeps (fun en => shell_escape (fst en) = false) m)
          end;
          unfold_cells; walk; reflexivity
        | intros ? ]
      | match goal with
        | |- leads _ _ (match ?g with _ => _ end) => destruct g as [[? ?] ?]
        end ].
    intros [w0 log] Hfree. unfold cell_12, bind, perform, ret. cbn [fst snd].
    destruct (lib (system "mlflow ui") w0) as [[? | ?] ?]; exact Hfree. }
  unfold journal, run. specialize (H (w, []) (Forall_nil _)).
  destruct (notebook lib (w, [])) as [o [w' log]]. cbn in *.
  destruct log as [| en older]; cbn; [constructor |].
  rewrite removelast_last. apply Forall_rev. exact H.
Qed.

Lemma shell_commands_app (tr1 tr2 : list entry) :
  shell_commands (tr1 ++ tr2) = shell_commands tr1 ++ shell_commands tr2.
Proof. apply flat_map_app. Qed.


(** ** The simulated library keeps the contract *)

Lemma sim_lib_contract : seeded_deterministic sim_lib.
Proof.
  intros c w w' Hc.
  destruct c; cbn in *; try reflexivity.
  - destruct (String.eqb attr "data"); [reflexivity |].
    destruct (String.eqb attr "target"); reflexivity.
  - destruct self as [| | | | | | [n [seed |] | eps ms] |]; cbn in *;
      first [reflexivity | discriminate].
  - destruct self as [| | | | | | [n [seed |] | eps ms] |]; cbn in *;
      first [reflexivity | discriminate].
Qed.

(** ** The notebook as a whole *)

Lemma notebook_propagates World
  (lib : call -> World -> outcome value * World) :
  propagates (notebook lib).
Proof.
  unfold_cells.
  repeat first
    [ apply propagates_ret
    | apply propagates_perform
    | apply propagates_with
    | apply propagates_bind; [| intros ?]
    | match goal with
      | |- propagates (match ?g with _ => _ end) => destruct g as [[? ?] ?]
      end ].
Qed.
(** ** The order of the calls *)

Lemma kinds_app (tr1 tr2 : list entry) :
  kinds (tr1 ++ tr2) = kinds tr1 ++ kinds tr2.
Proof. unfold kinds. rewrite calls_app. apply map_app. Qed.

Lemma upto_first_raise_app (tr1 tr2 : list entry) :
  upto_first_raise (tr1 ++ tr2) =
  if existsb raised tr1 then upto_first_raise tr1
  else tr1 ++ upto_first_raise tr2.
Proof.
  induction tr1 as [| en tr1 IH]; cbn; [reflexivity |].
  destruct (raised en); cbn; [reflexivity |].
  rewrite IH. destruct (existsb raised tr1); reflexivity.
Qed.

Lemma upto_first_raise_clean (tr : list entry) :
  existsb raised tr = false -> upto_first_raise tr = tr.
Proof.
  induction tr as [| en tr IH]; cbn; [reflexivity |].
  destruct (raised en); cbn; [discriminate |].
  intros H. rewrite IH by exact H. reflexivity.
Qed.

Lemma no_raise_clean (new : list entry) :
  existsb raised (rev new) = false -> clean new.
Proof.
  intros H. apply Forall_forall. intros en Hin.
  destruct (raised en) eqn:E; [| reflexivity].
  assert (Hx : existsb raised (rev new) = true).
  { apply existsb_exists. exists en. split; [| exact E].
    apply in_rev in Hin. exact Hin. }
  rewrite H in Hx. discriminate.
Qed.

Section Order.

Variable World : Type.
Variable lib : call -> World -> outcome value * World.

Lemma ordered_ret {A} (a : A) : ordered (ret (World := World) a) [].
Proof.
  intros st. exists []. split; [reflexivity |]. split.
  - intros _. split; [exists a |]; reflexivity.
  - exists []. reflexivity.
Qed.

Lemma ordered_perform (c : call) (k : string) :
  kind c = k -> ordered (perform lib c) [k].
Proof.
  intros <- st. unfold perform. destruct (lib c (fst st)) as [o w'].
  exists [(c, o)]. cbn [fst snd]. split; [reflexivity |]. split.
  - intros H. inversion H as [| x l Hx Hl]. subst.
    destruct o as [v | e]; [| discriminate Hx].
    split; [exists v |]; reflexivity.
  - exists []. destruct o; reflexivity.
Qed.

Lemma ordered_bind {A B} (m : nb World A) (f : A -> nb World B)
  (ks1 ks2 : list string) :
  ordered m ks1 -> (forall a, ordered (f a) ks2) ->
  ordered (bind m f) (ks1 ++ ks2).
Proof.
  intros Hm Hf st. unfold bind.
  destruct (Hm st) as [new1 [E1 [S1 [rest1 P1]]]].
  destruct (m st) as [[a | e] st1]; cbn [fst snd] in *.
  - destruct (Hf a st1) as [new2 [E2 [S2 [rest2 P2]]]].
    exists (new2 ++ new1). split; [rewrite E2, E1; apply app_assoc |].
    split.
    + intros Hc. apply Forall_app in Hc. destruct Hc as [Hc2 Hc1].
      destruct (S1 Hc1) as [_ K1]. destruct (S2 Hc2) as [R2 K2].
      split; [exact R2 |].
      rewrite rev_app_distr, kinds_app, K1, K2. reflexivity.
    + rewrite rev_app_distr, upto_first_raise_app.
      destruct (existsb raised (rev new1)) eqn:Ex.
      * exists (rest1 ++ ks2). rewrite P1, <- app_assoc. reflexivity.
      * destruct (S1 (no_raise_clean _ Ex)) as [_ K1].
        exists rest2. rewrite kinds_app, K1, P2, <- app_assoc. reflexivity.
  - exists new1. split; [exact E1 |]. split.
    + intros Hc. destruct (S1 Hc) as [[a Ea] _]. discriminate Ea.
    + exists (rest1 ++ ks2). rewrite P1, <- app_assoc. reflexivity.
Qed.

(** What follows [__enter__] in a [with] statement: the block, then
    [__exit__]. *)
Lemma ordered_block (mgr : value) (BLOCK : nb World unit)
  (ks : list string) :
  ordered BLOCK ks ->
  ordered
    (fun st =>
       match BLOCK st with
       | (Val _, st') =>
           bind (perform lib (ctx_exit mgr None)) (fun _ => ret tt) st'
       | (Raise e, st') =>
           match perform lib (ctx_exit mgr (Some e)) st' with
           | (Val r, st'') =>
               if truthy r then (Val tt, st'') else (Raise e, st'')
           | (Raise e', st'') => (Raise e', st'')
           end
       end)
    (ks ++ ["__exit__"]).
Proof.
  intros HB st. destruct (HB st) as [new [E [S [rest P]]]].
  destruct (BLOCK st) as [[[] | e] [w1 log1]]; cbn [fst snd] in *; subst log1.
  - unfold bind, perform, ret. cbn [fst snd].
    destruct (lib (ctx_exit mgr None) w1) as [o w2]. cbn [fst snd].
    exists ((ctx_exit mgr None, o) :: new).
    split; [destruct o; reflexivity |]. split.
    + intros H. inversion H as [| x l Hx Hl]. subst.
      destruct o as [v | e]; [| discriminate Hx].
      destruct (S Hl) as [_ K1]. split; [exists tt; reflexivity |].
      cbn [rev]. rewrite kinds_app, K1. reflexivity.
    + cbn [rev]. rewrite upto_first_raise_app.
      destruct (existsb raised (rev new)) eqn:Ex.
      * exists (rest ++ ["__exit__"]). rewrite P, <- app_assoc. reflexivity.
      * destruct (S (no_raise_clean _ Ex)) as [_ K1].
        exists []. rewrite kinds_app, K1, app_nil_r.
        destruct o; reflexivity.
  - assert (Ex : existsb raised (rev new) = true).
    { destruct (existsb raised (rev new)) eqn:Ex; [reflexivity |].
      destruct (S (no_raise_clean _ Ex)) as [[a Ea] _]. discriminate Ea. }
    unfold perform. cbn [fst snd].
    destruct (lib (ctx_exit mgr (Some e)) w1) as [o w2].
    exists ((ctx_exit mgr (Some e), o) :: new).
    split; [destruct o as [r | e']; [destruct (truthy r) |]; reflexivity |].
    split.
    + intros H. inversion H as [| x l Hx Hl]. subst.
      destruct (S Hl) as [[a Ea] _]. discriminate Ea.
    + cbn [rev]. rewrite upto_first_raise_app, Ex.
      exists (rest ++ ["__exit__"]). rewrite P, <- app_assoc. reflexivity.
Qed.

Lemma ordered_with (EXPR : nb World value) (BLOCK : nb World unit)
  (ks1 ks2 : list string) :
  ordered EXPR ks1 -> ordered BLOCK ks2 ->
  ordered (with_ lib EXPR BLOCK)
          (ks1 ++ ["__enter__"] ++ ks2 ++ ["__exit__"]).
Proof.
  intros HE HB. unfold with_.
  apply ordered_bind; [exact HE | intros mgr].
  apply ordered_bind; [apply ordered_perform; reflexivity | intros _].
  apply ordered_block. exact HB.
Qed.

Lemma ordered_journal {A} (m : nb World A) (ks : list string) (w : World) :
  ordered m ks ->
  exists rest, ks = kinds (upto_first_raise (journal m w)) ++ rest.
Proof.
  intros Hm. unfold journal, run.
  destruct (Hm (w, [])) as [new [E [_ P]]].
  destruct (m (w, [])) as [o [w' log]]. cbn [fst snd] in *.
  rewrite app_nil_r in E. subst log. exact P.
Qed.

End Order.

(** Walks a script with the rules of [ordered], collecting the names of its
    calls. *)
Ltac walk_ordered :=
  repeat first
    [ eapply ordered_ret
    | eapply ordered_perform; cbn; reflexivity
    | eapply ordered_with
    | eapply ordered_bind; [| intros ?]
    | match goal with
      | |- ordered (match ?g with _ => _ end) _ => destruct g as [[? ?] ?]
      end ].

Lemma notebook_ordered World
  (lib : call -> World -> outcome value * World) :
  ordered (notebook lib) notebook_kinds.
Proof.
  assert (H : exists ks, ordered (notebook lib) ks /\ ks = notebook_kinds).
  { eexists. split; [unfold_cells; walk_ordered | vm_compute; reflexivity]. }
  destruct H as [ks [H <-]]. exact H.
Qed.

(** ** What the calls find in the journal *)

Lemma each_call_app (need : requirement) (log1 log2 : list entry) :
  each_call need (log1 ++ log2) -> each_call need log2.
Proof.
  induction log1 as [| en log1 IH]; cbn; [auto | intros [_ H]; auto].
Qed.

Section Needs.

Variable need : requirement.
Hypothesis adm : admissible need.

Lemma needs_lawful : lawful (needs_kn need).
Proof.
  destruct adm as (Hmono & Henter & Hexit).
  unfold lawful. cbn. repeat apply conj.
  - intros c o [all inrun] log Hn (He & Hall & Hin). cbn in *.
    repeat apply conj.
    + eapply Hmono; eassumption.
    + exact He.
    + intros x [<- | Hx]; [left; reflexivity | right; apply Hall, Hx].
    + destruct c; cbn;
        try (intros x [<- | Hx]; [left; reflexivity | right; apply Hin, Hx]).
      intros x [].
  - intros c o [all inrun] log (He & Hall & _). cbn in *.
    repeat apply conj; [exact He | | intros x []].
    intros x Hx. apply Hall. right. exact Hx.
  - intros c o [all inrun] log (He & Hall & _). cbn in *.
    repeat apply conj; [exact He | | intros x []].
    intros x Hx. apply Hall. right. exact Hx.
  - intros [all inrun] log H. exact H.
  - intros mgr exc o [all inrun] log (He & Hall & _). cbn in *.
    repeat apply conj; [apply Hexit | exact He | | intros x []].
    intros x Hx. right. apply Hall, Hx.
  - intros mgr [all inrun]. apply Henter.
  - intros mgr exc [all inrun]. apply Hexit.
Qed.

Lemma each_call_met (tr : list entry) : each_call need (rev tr) -> met need tr.
Proof.
  destruct adm as (Hmono & _).
  intros H pre c o post E. subst tr.
  rewrite rev_app_distr in H. cbn in H. rewrite <- app_assoc in H.
  apply each_call_app in H. cbn in H. destruct H as [H _].
  eapply Hmono; [| apply incl_refl | exact H].
  intros x Hx. apply in_rev. exact Hx.
Qed.

(** A script that carries the knowledge from an empty journal leaves a
    journal in which every call found what it needs. *)
Lemma tracks_met World {A} (m : nb World A) (w : World) :
  tracks (needs_kn need) ([], []) m (fun _ log => each_call need log) ->
  met need (journal m w).
Proof.
  intros H. apply each_call_met. unfold journal, run.
  assert (H0 : holds (needs_kn need) ([], []) (snd (w, @nil entry)))
    by (cbn; repeat split; intros x []).
  specialize (H (w, []) H0).
  destruct (m (w, [])) as [[a | e] [w' log]]; cbn in *;
    rewrite rev_involutive; [exact H | exact (proj1 H)].
Qed.

End Needs.

(** What is known of the log is weakened to what the rule asks for. *)
Ltac recall :=
  cbn in *;
  lazymatch goal with
  | H : each_call _ ?log /\ _ |- each_call _ ?log => exact (proj1 H)
  | H : each_call _ ?log /\ incl _ ?log /\ _ |- each_call _ ?log /\ _ =>
      destruct H as (? & ? & ?);
      repeat apply conj;
      [ assumption
      | eapply incl_tran; [| eassumption];
        repeat (apply incl_cons; [find_in |]); apply incl_nil_l
      | intros ? [] ]
  end.

(** What a call needs is found in what is known. *)
Ltac the_need :=
  cbn;
  first [ exact I
        | intros; discriminate
        | intros _; eexists; find_in
        | find_in
        | eexists; split; find_in
        | split; [reflexivity |]; do 3 eexists;
          split; [eexists; split; find_in |];
          repeat split; find_in ].

Lemma in_created_experiment_admissible : admissible in_created_experiment.
Proof.
  repeat apply conj.
  - intros c b i b' i' Hb Hi. destruct c; cbn; auto.
  - intros; exact I.
  - intros; exact I.
Qed.

Lemma iris_data_incl (before before' : list entry) (X : value) :
  incl before before' -> iris_data before X -> iris_data before' X.
Proof.
  intros Hb (db & H1 & H2). exists db. split; apply Hb; assumption.
Qed.

Lemma after_autolog_admissible : admissible after_autolog.
Proof.
  repeat apply conj.
  - intros c b i b' i' Hb Hi H Hc.
    destruct (H Hc) as [v Hv]. exists v. apply Hb, Hv.
  - intros mgr b i Hc. discriminate Hc.
  - intros mgr exc b i Hc. discriminate Hc.
Qed.

Lemma on_iris_data_admissible : admissible on_iris_data.
Proof.
  repeat apply conj.
  - intros c b i b' i' Hb Hi. unfold on_iris_data.
    destruct (data_argument c); [apply iris_data_incl; exact Hb | auto].
  - intros; exact I.
  - intros; exact I.
Qed.

Lemma logs_fitted_model_admissible : admissible logs_fitted_model.
Proof.
  repeat apply conj.
  - intros c b i b' i' Hb Hi. destruct c; cbn; auto.
    intros (Hp & X & est & row & HX & H1 & H2 & H3).
    split; [exact Hp |]. exists X, est, row.
    repeat apply conj; [eapply iris_data_incl; eassumption | | |];
      apply Hi; assumption.
  - intros; exact I.
  - intros; exact I.
Qed.

Lemma notebook_in_created_experiment World
  (lib : call -> World -> outcome value * World) (w : World) :
  met in_created_experiment (journal (notebook lib) w).
Proof.
  apply (tracks_met in_created_experiment_admissible).
  unfold_cells.
  walk_tracks (needs_lawful in_created_experiment_admissible) the_need.
  all: recall.
Qed.

Lemma notebook_after_autolog World
  (lib : call -> World -> outcome value * World) (w : World) :
  met after_autolog (journal (notebook lib) w).
Proof.
  apply (tracks_met after_autolog_admissible).
  unfold_cells.
  walk_tracks (needs_lawful after_autolog_admissible) the_need.
  all: recall.
Qed.

Lemma notebook_on_iris_data World
  (lib : call -> World -> outcome value * World) (w : World) :
  met on_iris_data (journal (notebook lib) w).
Proof.
  apply (tracks_met on_iris_data_admissible).
  unfold_cells.
  walk_tracks (needs_lawful on_iris_data_admissible) the_need.
  all: recall.
Qed.

Lemma notebook_logs_fitted_model World
  (lib : call -> World -> outcome value * World) (w : World) :
  met logs_fitted_model (journal (notebook lib) w).
Proof.
  apply (tracks_met logs_fitted_model_admissible).
  unfold_cells.
  walk_tracks (needs_lawful logs_fitted_model_admissible) the_need.
  all: recall.
Qed.

(** ** Cell by cell *)

(** An invariant that every cell preserves is preserved by the notebook. *)
Lemma preserves_notebook World
  (lib : call -> World -> outcome value * World) (I : state World -> Prop) :
  preserves I (cell_1 lib) ->
  preserves I (cell_3 lib) ->
  (forall features, preserves I (cell_5 lib features)) ->
  (forall features, preserves I (cell_6 lib features)) ->
  (forall features, preserves I (cell_8 lib features)) ->
  (forall features exp_id, preserves I (cell_9 lib features exp_id)) ->
  (forall features exp_id, preserves I (cell_10 lib features exp_id)) ->
  preserves I (cell_12 lib) ->
  preserves I (notebook lib).
Proof.
  intros H1 H3 H5 H6 H8 H9 H10 H12. unfold notebook.
  apply preserves_bind; [exact H1 | intros _].
  apply preserves_bind; [exact H3 | intros [[db features] target]].
  apply preserves_bind; [apply H5 | intros _].
  apply preserves_bind; [apply H6 | intros _].
  apply preserves_bind; [apply H8 | intros exp_id].
  apply preserves_bind; [apply H9 | intros _].
  apply preserves_bind; [apply H10 | intros _].
  exact H12.
Qed.

(** What an invariant of the log says of the journal. *)
Lemma preserves_journal World {A} (m : nb World A) (w : World)
  (I : list entry -> Prop) :
  preserves (fun st => I (snd st)) m -> I [] -> I (rev (journal m w)).
Proof.
  intros Hm H0. unfold journal, run. specialize (Hm (w, []) H0).
  destruct (m (w, [])) as [o [w' log]]. cbn in *.
  rewrite rev_involutive. exact Hm.
Qed.

(** Runs a cell on every outcome of its calls. *)
Ltac run_cell lib :=
  unfold_cells; unfold with_, bind, perform, ret; cbn [fst snd];
  repeat match goal with
         | |- context [lib ?c ?w] =>
             destruct (lib c w) as [[? | ?] ?]; cbn [fst snd]
         | |- context [truthy ?r] => destruct (truthy r); cbn [fst snd]
         end.

(** ** Logging inside the runs *)

Lemma logs_inside_app (log1 log2 : list entry) :
  logs_inside (log1 ++ log2) -> logs_inside log2.
Proof.
  induction log1 as [| en log1 IH]; cbn; [auto | intros [_ H]; auto].
Qed.

Lemma logs_inside_journal (tr : list entry) :
  logs_inside (rev tr) -> logs_inside_runs tr.
Proof.
  intros H pre c o post E Hc. subst tr.
  rewrite rev_app_distr in H. cbn in H. rewrite <- app_assoc in H.
  apply logs_inside_app in H. cbn in H. destruct H as [H _].
  destruct (ended_of_journal (rev pre)) as [_ Eo].
  rewrite rev_involutive in Eo. rewrite Eo. apply H, Hc.
Qed.

Ltac inside_run :=
  cbn; repeat apply conj;
  first [ assumption
        | intros; discriminate
        | intros _; do 2 eexists; split; [reflexivity | find_in] ].

Lemma notebook_logs_inside World
  (lib : call -> World -> outcome value * World) :
  preserves (fun st => logs_inside (snd st)) (notebook lib).
Proof.
  apply preserves_notebook; intros; intros [w log] H; cbn [snd] in *;
    run_cell lib; inside_run.
Qed.

(** ** The [with] blocks *)

Lemma brackets_journal (log tr : list entry) :
  brackets log -> bracketed (phase_of log) tr ->
  bracketed Outside (rev log ++ tr).
Proof.
  revert tr. induction log as [| en older IH]; intros tr Hb Ht.
  - exact Ht.
  - cbn in Hb. destruct Hb as [Ha Hb].
    cbn [rev]. rewrite <- app_assoc. apply IH; [exact Hb |].
    cbn. split; [exact Ha | exact Ht].
Qed.

Ltac in_phase :=
  cbn;
  repeat match goal with
         | H : phase_of ?log = _ |- context [phase_of ?log] => rewrite H
         end;
  repeat apply conj;
  first [ assumption | reflexivity | intros; discriminate ].

Lemma notebook_brackets World
  (lib : call -> World -> outcome value * World) :
  preserves (fun st => brackets (snd st) /\ phase_of (snd st) = Outside)
            (notebook lib).
Proof.
  apply preserves_notebook; intros; intros [w log] [Hb Hp]; cbn [snd] in *;
    run_cell lib; in_phase.
Qed.

(** ** What [__exit__] is handed *)

Lemma exits_follow_app (log1 log2 : list entry) :
  exits_follow (log1 ++ log2) -> exits_follow log2.
Proof.
  induction log1 as [| en log1 IH]; cbn; [auto | intros [_ H]; auto].
Qed.

Lemma exits_follow_journal (tr : list entry) :
  exits_follow (rev tr) -> exits_explained tr.
Proof.
  intros H pre mgr exc o post E. subst tr.
  rewrite rev_app_distr in H. cbn in H. rewrite <- app_assoc in H.
  apply exits_follow_app in H. cbn in H. destruct H as [H _].
  destruct (rev pre) as [| prev older] eqn:Er; [contradiction |].
  exists (rev older), prev. split; [| exact H].
  rewrite <- (rev_involutive pre), Er. reflexivity.
Qed.

Ltac explained :=
  cbn; repeat apply conj;
  first [ assumption | exact I | reflexivity | eexists; reflexivity ].

Lemma notebook_exits_follow World
  (lib : call -> World -> outcome value * World) :
  preserves (fun st => exits_follow (snd st)) (notebook lib).
Proof.
  apply preserves_notebook; intros; intros [w log] H; cbn [snd] in *;
    run_cell lib; explained.
Qed.

(** ** Answers that do not depend on the world *)

Lemma answered_as_perform World
  (lib : call -> World -> outcome value * World) (w0 : World) (c : call) :
  seeded_deterministic lib -> keeps (answered_as lib w0) (perform lib c).
Proof.
  intros Hlib [w log] H. unfold perform. cbn [fst snd] in *.
  pose proof (Hlib c w w0) as E.
  destruct (lib c w) as [o w']. cbn [fst snd] in *.
  constructor; [exact E | exact H].
Qed.

Lemma notebook_answered_as World
  (lib : call -> World -> outcome value * World) (w0 w : World) :
  seeded_deterministic lib ->
  Forall (answered_as lib w0) (journal (notebook lib) w).
Proof.
  intros Hlib. apply keeps_journal. unfold_cells.
  repeat first
    [ apply keeps_ret
    | apply (answered_as_perform _ Hlib)
    | apply preserves_with;
      [intros ?; apply (answered_as_perform _ Hlib)
      | intros ? ?; apply (answered_as_perform _ Hlib) | | ]
    | apply keeps_bind; [| intros ?]
    | match goal with
      | |- keeps _ (match ?g with _ => _ end) => destruct g as [[? ?] ?]
      end ].
Qed.

Lemma Forall_nth_error {A} (P : A -> Prop) (l : list A) (n : nat) (x : A) :
  Forall P l -> nth_error l n = Some x -> P x.
Proof.
  intros H E. apply nth_error_In in E.
  rewrite Forall_forall in H. apply H, E.
Qed.

(** In an execution in which every call returned, the score logged by the
    run "DBSCAN" is the library's answer to a chain of calls that draw no
    randomness. *)
Lemma dbscan_score_determined World
  (lib : call -> World -> outcome value * World) (w0 w : World) :
  seeded_deterministic lib ->
  clean (journal (notebook lib) w) ->
  exists db X model labels score,
    Val db = fst (lib load_iris w0) /\
    Val X = fst (lib (getattr db "data") w0) /\
    Val model = fst (lib (fit (VEstimator (DBSCAN (1 # 2)%Q 5)) X) w0) /\
    Val labels = fst (lib (getattr model "labels_") w0) /\
    Val score = fst (lib (silhouette_score X labels) w0) /\
    map scalars (skipn 2 (ended_runs (journal (notebook lib) w))) =
      [ (VStr "DBSCAN",
         [(VStr "min_samples", VInt 5); (VStr "eps", VFloat (1 # 2)%Q)],
         [(VStr "silhoutte_score", score)]) ].
Proof.
  intros Hlib Hc.
  pose proof (notebook_answered_as w0 w Hlib) as H.
  destruct (clean_run lib w Hc) as [_ [ans E]].
  rewrite E in *. clear E Hc. vm_compute in H.
  exists (ans 5%nat), (ans 6%nat), (ans 40%nat), (ans 41%nat), (ans 42%nat).
  repeat apply conj;
    [ apply (Forall_nth_error 5 H eq_refl eq_refl)
    | apply (Forall_nth_error 6 H eq_refl eq_refl)
    | apply (Forall_nth_error 40 H eq_refl eq_refl)
    | apply (Forall_nth_error 41 H eq_refl eq_refl)
    | apply (Forall_nth_error 42 H eq_refl eq_refl)
    | vm_compute; reflexivity ].
Qed.


(** ** Calls outside the bodies of the runs *)

Section Projecting.

Variable World : Type.
Variable lib : call -> World -> outcome value * World.
Variable T : Type.
Variable label : call -> list T.

Lemma projection_app (tr1 tr2 : list entry) :
  projection label (tr1 ++ tr2) = projection label tr1 ++ projection label tr2.
Proof. apply flat_map_app. Qed.

Lemma projects_ret {A} (a : A) : projects label (ret (World := World) a) [].
Proof.
  intros st. exists []. split; [reflexivity |]. split.
  - intros _. reflexivity.
  - exists []. reflexivity.
Qed.

Lemma projects_perform (c : call) (ks : list T) :
  label c = ks -> projects label (perform lib c) ks.
Proof.
  intros <- st. unfold perform. destruct (lib c (fst st)) as [o w'].
  exists [(c, o)]. cbn [fst snd]. split; [reflexivity |].
  unfold projection. cbn. rewrite app_nil_r. split.
  - intros _. reflexivity.
  - exists []. rewrite app_nil_r. reflexivity.
Qed.

Lemma projects_bind {A B} (m : nb World A) (f : A -> nb World B)
  (ks1 ks2 : list T) :
  projects label m ks1 -> (forall a, projects label (f a) ks2) ->
  projects label (bind m f) (ks1 ++ ks2).
Proof.
  intros Hm Hf st. unfold bind.
  destruct (Hm st) as [new1 [E1 [S1 [rest1 P1]]]].
  destruct (m st) as [[a | e] st1]; cbn [fst snd] in *.
  - destruct (Hf a st1) as [new2 [E2 [S2 [rest2 P2]]]].
    assert (K1 : projection label (rev new1) = ks1)
      by (apply S1; exists a; reflexivity).
    exists (new2 ++ new1). split; [rewrite E2, E1; apply app_assoc |].
    rewrite rev_app_distr, projection_app, K1. split.
    + intros Hv. rewrite (S2 Hv). reflexivity.
    + exists rest2. rewrite P2, <- app_assoc. reflexivity.
  - exists new1. split; [exact E1 |]. split.
    + intros [a Ea]. discriminate Ea.
    + exists (rest1 ++ ks2). rewrite P1, <- app_assoc. reflexivity.
Qed.

(** A [with] statement whose block and whose [__enter__] and [__exit__]
    calls [label] drops: what is kept is what is kept of its header. *)
Lemma projects_with (EXPR : nb World value) (BLOCK : nb World unit)
  (ks : list T) :
  (forall mgr, label (ctx_enter mgr) = []) ->
  (forall mgr exc, label (ctx_exit mgr exc) = []) ->
  projects label EXPR ks -> projects label BLOCK [] ->
  projects label (with_ lib EXPR BLOCK) ks.
Proof.
  intros Hen Hex HE HB. unfold with_.
  rewrite <- (app_nil_r ks).
  apply projects_bind; [exact HE | intros mgr].
  change (@nil T) with (@nil T ++ []).
  apply projects_bind; [apply projects_perform, Hen | intros _].
  intros st. destruct (HB st) as [new [E [_ [rest P]]]].
  assert (K0 : projection label (rev new) = []).
  { destruct (projection label (rev new)); [reflexivity | discriminate P]. }
  assert (Hall : forall exc o,
            projection label (rev ((ctx_exit mgr exc, o) :: new)) = []).
  { intros exc o.
    change (rev ((ctx_exit mgr exc, o) :: new))
      with (rev new ++ [(ctx_exit mgr exc, o)]).
    rewrite projection_app, K0.
    unfold projection. cbn. rewrite Hex. reflexivity. }
  destruct (BLOCK st) as [[[] | e] [w1 log1]]; cbn [fst snd] in *; subst log1.
  - unfold bind, perform, ret. cbn [fst snd].
    destruct (lib (ctx_exit mgr None) w1) as [o w2]. cbn [fst snd].
    exists ((ctx_exit mgr None, o) :: new).
    split; [destruct o; reflexivity |].
    rewrite Hall. split; [intros _; reflexivity | exists []; reflexivity].
  - unfold perform. cbn [fst snd].
    destruct (lib (ctx_exit mgr (Some e)) w1) as [o w2].
    exists ((ctx_exit mgr (Some e), o) :: new).
    split; [destruct o as [r | e']; [destruct (truthy r) |]; reflexivity |].
    rewrite Hall. split; [intros _; reflexivity | exists []; reflexivity].
Qed.

Lemma projects_nothing {A} (m : nb World A) (ks : list T) :
  projects label m ks -> ks = [] -> projects label m [].
Proof. intros H <-. exact H. Qed.

Lemma projects_journal {A} (m : nb World A) (ks : list T) (w : World) :
  projects label m ks ->
  ((exists a, result m w = Val a) -> projection label (journal m w) = ks) /\
  exists rest, ks = projection label (journal m w) ++ rest.
Proof.
  intros Hm. unfold journal, result, run.
  destruct (Hm (w, [])) as [new [E P]].
  destruct (m (w, [])) as [o [w' log]]. cbn [fst snd] in *.
  rewrite app_nil_r in E. subst log. exact P.
Qed.

End Projecting.

(** Walks a script with the rules of [projects], collecting what is kept of
    its calls. *)
Ltac walk_projects :=
  repeat first
    [ eapply projects_ret
    | eapply projects_perform; cbn; reflexivity
    | eapply projects_with;
      [intros ?; reflexivity | intros ? ?; reflexivity | |
       eapply projects_nothing]
    | eapply projects_bind; [| intros ?]
    | match goal with
      | |- projects _ (match ?g with _ => _ end) _ => destruct g as [[? ?] ?]
      end ].

Lemma notebook_started_names World
  (lib : call -> World -> outcome value * World) :
  projects run_name_of (notebook lib) named_runs.
Proof.
  assert (H : exists ks, projects run_name_of (notebook lib) ks /\
                         ks = named_runs).
  { eexists. split; [unfold_cells; walk_projects; reflexivity |].
    vm_compute. reflexivity. }
  destruct H as [ks [H <-]]. exact H.
Qed.

Lemma notebook_imports World
  (lib : call -> World -> outcome value * World) :
  projects module_of (notebook lib) notebook_modules.
Proof.
  assert (H : exists ks, projects module_of (notebook lib) ks /\
                         ks = notebook_modules).
  { eexists. split; [unfold_cells; walk_projects; reflexivity |].
    vm_compute. reflexivity. }
  destruct H as [ks [H <-]]. exact H.
Qed.

Lemma notebook_setup_calls World
  (lib : call -> World -> outcome value * World) :
  projects setup_of (notebook lib) notebook_setup.
Proof.
  assert (H : exists ks, projects setup_of (notebook lib) ks /\
                         ks = notebook_setup).
  { eexists. split; [unfold_cells; walk_projects; reflexivity |].
    vm_compute. reflexivity. }
  destruct H as [ks [H <-]]. exact H.
Qed.

(** * The claims *)

(** C1.  Whatever the library answers, every run the notebook ends is one
    of the named runs, "Kmeans - K=2", "Kmeans - K=3" and "DBSCAN", and it
    logged, between its [mlflow.start_run] and its [mlflow.end_run], at least
    one parameter, at least one metric and exactly one model.  When every
    call returns, the runs ended are the three named runs, in this order. *)
Theorem named_runs_record_param_metric_model World
  (lib : call -> World -> outcome value * World) (w : World) :
  Forall (fun r => In (fst r) named_runs /\ records_all r)
         (ended_runs (journal (notebook lib) w)) /\
  (clean (journal (notebook lib) w) ->
   map fst (ended_runs (journal (notebook lib) w)) = named_runs).
Proof.
  split.
  - eapply Forall_impl; [| apply notebook_runs_ok].
    intros r (Hname & Hrec & _). split; assumption.
  - intros Hc. destruct (clean_run lib w Hc) as [_ [ans ->]].
    vm_compute. reflexivity.
Qed.

Lemma named_runs_record_witness :
  map fst (ended_runs (journal (notebook sim_lib) 0%N)) = named_runs.
Proof.
  apply (@named_runs_record_param_metric_model N sim_lib 0%N).
  vm_compute. repeat constructor.
Defined.




(** C3.  In every code cell, run from any world on any library: provided no
    [__exit__] of the library swallowed an exception (mlflow's returns a
    false value whenever it is handed one), an exception raised by any call
    makes the cell end with an exception, the one raised last; the cell
    raises nothing that a call did not raise; and after the first call that
    raised, the cell makes no call but the [__exit__] of its [with] block:
    nothing is caught, retried or recovered. *)
Theorem exceptions_propagate World
  (lib : call -> World -> outcome value * World)
  (features exp_id : value) (cell : nb World unit) (w : World) :
  In cell (code_cells lib features exp_id) ->
  exits_pass (journal cell w) ->
  (forall c e, In (c, Raise e) (journal cell w) ->
     exists e', result cell w = Raise e' /\
                last_raised (journal cell w) = Some e') /\
  (forall e, result cell w = Raise e ->
     last_raised (journal cell w) = Some e) /\
  Forall is_exit (after_first_raise (journal cell w)).
Proof.
  intros Hcell Hx. unfold journal, result, run in *.
  destruct (cells_propagate Hcell (w, [])) as [new [E S]].
  destruct (cell (w, [])) as [o [w' log]]. cbn in *.
  rewrite app_nil_r in E. subst log.
  apply exits_pass_rev in Hx. specialize (S Hx).
  destruct o as [[] | e]; cbn in S.
  - apply clean_no_raise in S. destruct S as [E1 E2]. repeat split.
    + intros c e Hin. exfalso. eapply no_raise_not_in; eassumption.
    + intros e He. discriminate He.
    + rewrite after_first_raise_clean by exact E1. constructor.
  - apply failed_chronological in S. destruct S as [E1 [E2 E3]].
    repeat split.
    + intros c e0 _. exists e. split; [reflexivity | exact E2].
    + intros e0 He. injection He as <-. exact E2.
    + exact E3.
Qed.

Lemma exceptions_propagate_witness :
  let lib := failing_on "mlflow.sklearn.log_model" sim_lib in
  let cell := cell_9 lib (VObj 2) (VStr "1") in
  (forall c e, In (c, Raise e) (journal cell 0%N) ->
     exists e', result cell 0%N = Raise e' /\
                last_raised (journal cell 0%N) = Some e') /\
  (forall e, result cell 0%N = Raise e ->
     last_raised (journal cell 0%N) = Some e) /\
  Forall is_exit (after_first_raise (journal cell 0%N)).
Proof.
  intros lib cell.
  apply (@exceptions_propagate N lib (VObj 2) (VStr "1") cell 0%N).
  - unfold code_cells. do 5 right. left. reflexivity.
  - intros mgr exc r H. vm_compute in H.
    repeat (destruct H as [H | H]; [try discriminate H |]);
      [injection H as <- <- <-; reflexivity | contradiction].
Defined.

(** C4.  Whatever the library answers, every parameter the notebook logs is
    one of [value_of_k = 2], [value_of_k = 3], [min_samples = 5] and
    [eps = 0.5], every metric is logged under 'silhoutte_score' or
    'davies_bouldin_score', and every call to a scoring function is a call to
    [silhouette_score] or [davies_bouldin_score].  When every call returns,
    the parameters logged are exactly these four and the scores computed are
    three silhouette scores and one Davies-Bouldin score. *)
Theorem only_three_hyperparameters_two_scores World
  (lib : call -> World -> outcome value * World) (w : World) :
  Forall (fun kv => In kv hyperparameters)
         (params (journal (notebook lib) w)) /\
  Forall (fun kv => In (fst kv)
                      [VStr "silhoutte_score"; VStr "davies_bouldin_score"])
         (metrics (journal (notebook lib) w)) /\
  Forall (fun k => In k ["silhouette_score"; "davies_bouldin_score"])
         (score_calls (journal (notebook lib) w)) /\
  (clean (journal (notebook lib) w) ->
   params (journal (notebook lib) w) = hyperparameters /\
   score_calls (journal (notebook lib) w) =
     ["silhouette_score"; "silhouette_score"; "davies_bouldin_score";
      "silhouette_score"]).
Proof.
  pose proof (notebook_in_script lib w) as H.
  split; [| split; [| split]].
  - apply Forall_flat_map. eapply Forall_impl; [| exact H].
    intros [c [v | e]] Hc; destruct c; cbn in *;
      first [ apply Forall_nil
            | apply Forall_cons; [exact Hc | apply Forall_nil] ].
  - apply Forall_flat_map. eapply Forall_impl; [| exact H].
    intros [c [v | e]] Hc; destruct c; cbn in *;
      first [ apply Forall_nil
            | apply Forall_cons; [exact Hc | apply Forall_nil] ].
  - unfold score_calls, calls. apply Forall_map.
    apply Forall_forall. intros c Hin. apply filter_In in Hin.
    destruct Hin as [_ Hs]. destruct c; cbn in *; try discriminate; tauto.
  - intros Hc. destruct (clean_run lib w Hc) as [_ [ans ->]].
    split; vm_compute; reflexivity.
Qed.

Lemma only_three_hyperparameters_witness :
  params (journal (notebook sim_lib) 0%N) = hyperparameters /\
  score_calls (journal (notebook sim_lib) 0%N) =
    ["silhouette_score"; "silhouette_score"; "davies_bouldin_score";
     "silhouette_score"].
Proof.
  apply (@only_three_hyperparameters_two_scores N sim_lib 0%N).
  vm_compute. repeat constructor.
Defined.

(** C5.  Whatever the library answers, every value the notebook hands to
    [mlflow.log_metric] is the answer of a library scoring function,
    [silhouette_score] for the key 'silhoutte_score' and
    [davies_bouldin_score] for the key 'davies_bouldin_score', called in the
    same run on the features ([data] of what [load_iris] returned) and on the
    [labels_] of the model fitted on these features in that run. *)
Theorem logged_metrics_come_from_library World
  (lib : call -> World -> outcome value * World) (w : World) :
  each_metric_from_library (journal (notebook lib) w).
Proof. apply notebook_provenance. Qed.

(** C6.  Whatever the library answers, every call of the notebook goes to a
    library (an import, an attribute or an item of a library object, a
    function of scikit-learn, numpy or mlflow) or to the shell; the shell is
    called at most once, as the last call, with the command line
    [mlflow ui], whose words are [mlflow] and [ui]: no port is passed.  When
    every call returns, the shell is called exactly once. *)
Theorem one_shell_call_without_port World
  (lib : call -> World -> outcome value * World) (w : World) :
  Forall (fun c => In (origin_of c) libraries \/ c = system "mlflow ui")
         (calls (journal (notebook lib) w)) /\
  shell_commands (removelast (journal (notebook lib) w)) = [] /\
  (List.length (shell_commands (journal (notebook lib) w)) <= 1)%nat /\
  Forall (fun cmd => argv cmd = ["mlflow"; "ui"])
         (shell_commands (journal (notebook lib) w)) /\
  (clean (journal (notebook lib) w) ->
   shell_commands (journal (notebook lib) w) = ["mlflow ui"]).
Proof.
  pose proof (notebook_in_script lib w) as H.
  pose proof (notebook_escape_last lib w) as HL.
  assert (Hfree : shell_commands (removelast (journal (notebook lib) w)) = []).
  { induction HL as [| [c o] tr Hc _ IH]; [reflexivity |].
    cbn in *. destruct c; cbn in *; first [exact IH | discriminate]. }
  split; [| split; [| split; [| split]]].
  - unfold calls. apply Forall_map. eapply Forall_impl; [| exact H].
    intros [c o] Hc. destruct c; cbn in Hc |- *;
      try (left; unfold libraries; find_in).
    right. rewrite Hc. reflexivity.
  - exact Hfree.
  - clear H HL. revert Hfree. generalize (journal (notebook lib) w).
    intros J. induction J as [| en tr _] using rev_ind; intros Hfree;
      [cbn; lia |].
    rewrite removelast_last in Hfree.
    rewrite shell_commands_app, Hfree. cbn.
    destruct (fst en); cbn; lia.
  - apply Forall_flat_map. eapply Forall_impl; [| exact H].
    intros [c o] Hc. destruct c; cbn in *;
      first [apply Forall_nil | apply Forall_cons; [| apply Forall_nil]].
    rewrite Hc. reflexivity.
  - intros Hc. destruct (clean_run lib w Hc) as [_ [ans ->]].
    vm_compute. reflexivity.
Qed.

Lemma one_shell_call_witness :
  shell_commands (journal (notebook sim_lib) 0%N) = ["mlflow ui"].
Proof.
  apply (@one_shell_call_without_port N sim_lib 0%N).
  vm_compute. repeat constructor.
Defined.

(** C7, as stated, fails: on the simulated library every call returns, and
    one of the operations of the notebook creates a process: the last cell
    is the shell escape [!mlflow ui], whose command line IPython runs in a
    child process. *)
Lemma notebook_starts_a_process :
  clean (journal (notebook sim_lib) 0%N) /\
  no_process_started (journal (notebook sim_lib) 0%N) = false /\
  last (calls (journal (notebook sim_lib) 0%N)) load_iris = system "mlflow ui".
Proof.
  split; [vm_compute; repeat constructor |].
  split; vm_compute; reflexivity.
Qed.

(** C7, amended.  Whatever the library answers, the statements of the
    notebook are executed in cell order: the calls made up to and including
    the first that raises are the first calls of the script, in its order.
    The modules imported are the first of mlflow, numpy, sklearn.datasets,
    sklearn.cluster and sklearn.metrics, in this order, and no other: no
    module for threads, processes or coroutines is imported.  The one
    statement that creates a process is the shell escape: no call but the
    last is a shell escape, and a shell escape is [!mlflow ui].  What the
    library functions start while they run is not the notebook's and is not
    stated. *)
Theorem calls_in_sequence_one_child_process World
  (lib : call -> World -> outcome value * World) (w : World) :
  (exists rest,
     notebook_kinds =
     kinds (upto_first_raise (journal (notebook lib) w)) ++ rest) /\
  (exists rest,
     notebook_modules =
     imported_modules (journal (notebook lib) w) ++ rest) /\
  Forall (fun en => shell_escape (fst en) = false)
         (removelast (journal (notebook lib) w)) /\
  Forall (fun c => shell_escape c = false \/ c = system "mlflow ui")
         (calls (journal (notebook lib) w)).
Proof.
  split; [| split; [| split]].
  - apply ordered_journal, notebook_ordered.
  - exact (proj2 (projects_journal w (notebook_imports lib))).
  - apply notebook_escape_last.
  - unfold calls. apply Forall_map.
    eapply Forall_impl; [| apply notebook_in_script].
    intros [c o] Hc. destruct c; cbn in *; try (left; reflexivity).
    right. rewrite Hc. reflexivity.
Qed.

(** C8.  Whatever the library answers, no metric is logged under the key
    'silhouette_score', and in every run the notebook ends, the silhouette
    score computed in the run is logged under the key 'silhoutte_score'.
    When every call returns, the runs ended are the three named runs. *)
Theorem silhouette_logged_as_silhoutte World
  (lib : call -> World -> outcome value * World) (w : World) :
  Forall (fun kv => fst kv <> VStr "silhouette_score")
         (metrics (journal (notebook lib) w)) /\
  Forall logs_silhoutte (ended_runs (journal (notebook lib) w)) /\
  (clean (journal (notebook lib) w) ->
   map fst (ended_runs (journal (notebook lib) w)) = named_runs).
Proof.
  split; [| split].
  - apply Forall_flat_map. eapply Forall_impl; [| apply notebook_in_script].
    intros [c [v | e]] Hc; destruct c; cbn in *;
      first [apply Forall_nil | apply Forall_cons; [| apply Forall_nil]].
    cbn. destruct Hc as [<- | [<- | []]]; discriminate.
  - eapply Forall_impl; [| apply notebook_runs_ok].
    intros r (_ & _ & _ & H). exact H.
  - intros Hc. destruct (clean_run lib w Hc) as [_ [ans ->]].
    vm_compute. reflexivity.
Qed.

Lemma silhouette_logged_as_silhoutte_witness :
  map fst (ended_runs (journal (notebook sim_lib) 0%N)) = named_runs.
Proof.
  apply (@silhouette_logged_as_silhoutte N sim_lib 0%N).
  vm_compute. repeat constructor.
Defined.

(** C9.  Whatever the library answers, every run the notebook ends logs as
    parameters the constructor arguments of the estimator it fits, and
    nothing else.  When every call returns, 'value_of_k' is 2 for
    [KMeans(n_clusters=2)] and 3 for [KMeans(n_clusters=3)], and
    'min_samples' and 'eps' are 5 and 0.5 for
    [DBSCAN(eps=0.5, min_samples=5)]. *)
Theorem logged_params_are_constructor_arguments World
  (lib : call -> World -> outcome value * World) (w : World) :
  Forall params_match_estimator (ended_runs (journal (notebook lib) w)) /\
  (clean (journal (notebook lib) w) ->
   map digest (ended_runs (journal (notebook lib) w)) = expected_digest).
Proof.
  split.
  - eapply Forall_impl; [| apply notebook_runs_ok].
    intros r (_ & _ & H & _). exact H.
  - intros Hc. destruct (clean_run lib w Hc) as [_ [ans ->]].
    vm_compute. reflexivity.
Qed.

Lemma logged_params_witness :
  map digest (ended_runs (journal (notebook sim_lib) 0%N)) = expected_digest.
Proof.
  apply (@logged_params_are_constructor_arguments N sim_lib 0%N).
  vm_compute. repeat constructor.
Defined.



(** * Further properties of the notebook *)

(** X1.  Whatever the library answers, the calls the notebook makes up to
    and including the first one that raises are the first calls of its
    script, in the script's order: imports, data, autologged fits, the
    experiment, then the three runs and the shell command. *)
Theorem calls_follow_script_order World
  (lib : call -> World -> outcome value * World) (w : World) :
  exists rest,
    notebook_kinds =
    kinds (upto_first_raise (journal (notebook lib) w)) ++ rest.
Proof. apply ordered_journal, notebook_ordered. Qed.

(** X2.  The notebook run from top to bottom, provided no [__exit__]
    swallowed an exception: it ends without exception exactly when every
    call returned; when it raises, it raises the exception raised last; and
    after the first call that raised, no call of that cell or of a later
    cell is made but the [__exit__] of the enclosing [with] block. *)
Theorem first_failure_stops_notebook World
  (lib : call -> World -> outcome value * World) (w : World) :
  exits_pass (journal (notebook lib) w) ->
  (result (notebook lib) w = Val tt <-> clean (journal (notebook lib) w)) /\
  (forall e, result (notebook lib) w = Raise e ->
     last_raised (journal (notebook lib) w) = Some e) /\
  Forall is_exit (after_first_raise (journal (notebook lib) w)).
Proof.
  intros Hx.
  assert (Hclean : clean (journal (notebook lib) w) ->
                   result (notebook lib) w = Val tt)
    by (intros Hc; exact (proj1 (clean_run lib w Hc))).
  unfold journal, result, run in *.
  destruct (notebook_propagates lib (w, [])) as [new [E S]].
  destruct (notebook lib (w, [])) as [o [w' log]]. cbn in *.
  rewrite app_nil_r in E. subst log.
  apply exits_pass_rev in Hx. specialize (S Hx).
  destruct o as [[] | e]; cbn in S.
  - pose proof (clean_no_raise S) as [E1 E2]. repeat split.
    + intros _. apply Forall_rev. exact S.
    + intros e He. discriminate He.
    + rewrite after_first_raise_clean by exact E1. constructor.
  - apply failed_chronological in S. destruct S as [E1 [E2 E3]].
    repeat split.
    + intros He. discriminate He.
    + exact Hclean.
    + intros e0 He. injection He as <-. exact E2.
    + exact E3.
Qed.

Lemma first_failure_stops_notebook_witness :
  let lib := failing_on "mlflow.sklearn.log_model" sim_lib in
  (result (notebook lib) 0%N = Val tt <-> clean (journal (notebook lib) 0%N)) /\
  (forall e, result (notebook lib) 0%N = Raise e ->
     last_raised (journal (notebook lib) 0%N) = Some e) /\
  Forall is_exit (after_first_raise (journal (notebook lib) 0%N)).
Proof.
  intros lib.
  apply (@first_failure_stops_notebook N lib 0%N).
  intros mgr exc r H. vm_compute in H.
  repeat (destruct H as [H | H]; [try discriminate H |]);
    [injection H as <- <- <-; reflexivity | contradiction].
Defined.

(** X3.  Whatever the library answers, every [mlflow.start_run] the notebook
    calls is handed as [experiment_id] what an earlier
    [mlflow.create_experiment('Clustering-Ejemplos')] returned: no run is
    started unless the experiment was created, and the three runs go to that
    experiment. *)
Theorem runs_started_in_created_experiment World
  (lib : call -> World -> outcome value * World) (w : World)
  (pre post : list entry) (experiment_id run_name : value)
  (o : outcome value) :
  journal (notebook lib) w =
    pre ++ (mlflow_start_run experiment_id run_name, o) :: post ->
  In (mlflow_create_experiment (VStr "Clustering-Ejemplos"),
      Val experiment_id) pre.
Proof.
  intros E. exact (notebook_in_created_experiment lib w _ _ _ _ E).
Qed.

Lemma runs_started_in_created_experiment_witness :
  In (mlflow_create_experiment (VStr "Clustering-Ejemplos"), Val (VStr "1"))
     (firstn 38 (journal (notebook sim_lib) 0%N)).
Proof.
  apply (@runs_started_in_created_experiment N sim_lib 0%N
           (firstn 38 (journal (notebook sim_lib) 0%N))
           (skipn 39 (journal (notebook sim_lib) 0%N))
           (VStr "1") (VStr "DBSCAN") (Val (VObj 7))).
  vm_compute. reflexivity.
Defined.

(** X4.  Whatever the library answers, every [fit] and [fit_predict] of the
    notebook is called after [mlflow.autolog()] returned: no estimator is
    fitted with autologging off. *)
Theorem fits_follow_autolog World
  (lib : call -> World -> outcome value * World) (w : World)
  (pre post : list entry) (c : call) (o : outcome value) :
  journal (notebook lib) w = pre ++ (c, o) :: post ->
  is_fit c = true ->
  exists v, In (mlflow_autolog, Val v) pre.
Proof.
  intros E. exact (notebook_after_autolog lib w _ _ _ _ E).
Qed.

Lemma fits_follow_autolog_witness :
  exists v, In (mlflow_autolog, Val v)
               (firstn 9 (journal (notebook sim_lib) 0%N)).
Proof.
  apply (@fits_follow_autolog N sim_lib 0%N
           (firstn 9 (journal (notebook sim_lib) 0%N))
           (skipn 10 (journal (notebook sim_lib) 0%N))
           (fit_predict (VEstimator (DBSCAN (1 # 2)%Q 5)) (VObj 2))
           (Val (VObj 13000))).
  - vm_compute. reflexivity.
  - reflexivity.
Defined.

(** X5.  Whatever the library answers, every estimator is fitted on, every
    score is computed on, and every input example is taken from the
    features: the [data] attribute of what [load_iris()] returned earlier. *)
Theorem fits_and_scores_use_iris_data World
  (lib : call -> World -> outcome value * World) (w : World)
  (pre post : list entry) (c : call) (o : outcome value) (X : value) :
  journal (notebook lib) w = pre ++ (c, o) :: post ->
  data_argument c = Some X ->
  iris_data pre X.
Proof.
  intros E Hc.
  pose proof (notebook_on_iris_data lib w _ _ _ _ E) as H.
  unfold on_iris_data in H. rewrite Hc in H. exact H.
Qed.

Lemma fits_and_scores_use_iris_data_witness :
  iris_data (firstn 42 (journal (notebook sim_lib) 0%N)) (VObj 2).
Proof.
  apply (@fits_and_scores_use_iris_data N sim_lib 0%N
           (firstn 42 (journal (notebook sim_lib) 0%N))
           (skipn 43 (journal (notebook sim_lib) 0%N))
           (silhouette_score (VObj 2) (VObj 13000))
           (Val (VFloat (13000 # 100000)%Q))).
  - vm_compute. reflexivity.
  - reflexivity.
Defined.

(** X6.  Whatever the library answers, every [mlflow.sklearn.log_model] of
    the notebook logs, under the path 'Clustering_Model', the model that
    [fit] returned on the features in the same run, and its input example is
    what [np.array] returned, in that run, for the list holding the first
    row of the features. *)
Theorem logged_model_is_fitted_model World
  (lib : call -> World -> outcome value * World) (w : World)
  (pre post : list entry) (sk_model artifact_path input_example : value)
  (o : outcome value) :
  journal (notebook lib) w =
    pre ++ (mlflow_sklearn_log_model sk_model artifact_path input_example, o)
        :: post ->
  artifact_path = VStr "Clustering_Model" /\
  exists X est row,
    iris_data pre X /\
    In (fit est X, Val sk_model) (current_run (rev pre)) /\
    In (getitem X (VInt 0), Val row) (current_run (rev pre)) /\
    In (np_array (VList [row]), Val input_example) (current_run (rev pre)).
Proof.
  intros E. exact (notebook_logs_fitted_model lib w _ _ _ _ E).
Qed.

Lemma logged_model_is_fitted_model_witness :
  VStr "Clustering_Model" = VStr "Clustering_Model" /\
  exists X est row,
    iris_data (firstn 48 (journal (notebook sim_lib) 0%N)) X /\
    In (fit est X, Val (VObj 3000))
       (current_run (rev (firstn 48 (journal (notebook sim_lib) 0%N)))) /\
    In (getitem X (VInt 0), Val row)
       (current_run (rev (firstn 48 (journal (notebook sim_lib) 0%N)))) /\
    In (np_array (VList [row]), Val (VObj 5))
       (current_run (rev (firstn 48 (journal (notebook sim_lib) 0%N)))).
Proof.
  apply (@logged_model_is_fitted_model N sim_lib 0%N
           (firstn 48 (journal (notebook sim_lib) 0%N))
           (skipn 49 (journal (notebook sim_lib) 0%N))
           (VObj 3000) (VStr "Clustering_Model") (VObj 5) (Val (VObj 8))).
  vm_compute. reflexivity.
Defined.

(** X7.  Whatever the library answers, every [mlflow.log_param],
    [mlflow.log_metric], [mlflow.sklearn.log_model] and [mlflow.end_run] of
    the notebook is called while one of the named runs is open: after its
    [mlflow.start_run] returned and before an [mlflow.end_run] returned.
    Nothing is logged outside the runs the notebook starts. *)
Theorem logging_happens_inside_named_run World
  (lib : call -> World -> outcome value * World) (w : World)
  (pre post : list entry) (c : call) (o : outcome value) :
  journal (notebook lib) w = pre ++ (c, o) :: post ->
  needs_run c = true ->
  named_run_open (open_after None pre).
Proof.
  intros E.
  assert (H : logs_inside_runs (journal (notebook lib) w)).
  { apply logs_inside_journal.
    apply (@preserves_journal World unit (notebook lib) w logs_inside);
      [apply notebook_logs_inside | exact I]. }
  exact (H _ _ _ _ E).
Qed.

Lemma logging_happens_inside_named_run_witness :
  named_run_open (open_after None (firstn 31 (journal (notebook sim_lib) 0%N))).
Proof.
  apply (@logging_happens_inside_named_run N sim_lib 0%N
           (firstn 31 (journal (notebook sim_lib) 0%N))
           (skipn 32 (journal (notebook sim_lib) 0%N))
           (mlflow_log_metric (VStr "silhoutte_score")
              (VFloat (12031 # 100000)%Q))
           (Val VNone)).
  - vm_compute. reflexivity.
  - reflexivity.
Defined.

(** X8.  Whatever the library answers, the [with] blocks of the notebook are
    bracketed: a run is started outside any block, the manager that
    [mlflow.start_run] returned is entered at once, a manager that was
    entered is exited exactly once, by an [__exit__] on that manager, before
    anything is started again, also when the block raises; and the notebook
    ends outside any block. *)
Theorem with_blocks_bracketed World
  (lib : call -> World -> outcome value * World) (w : World) :
  bracketed Outside (journal (notebook lib) w).
Proof.
  pose proof (@preserves_journal World unit (notebook lib) w
                (fun log => brackets log /\ phase_of log = Outside)
                (notebook_brackets lib) (conj I eq_refl)) as [Hb Hp].
  pose proof (brackets_journal (rev (journal (notebook lib) w)) [] Hb) as H.
  rewrite rev_involutive, app_nil_r in H. apply H. exact Hp.
Qed.

(** X9.  Whatever the library answers, an [__exit__] that is handed no
    exception comes right after an [mlflow.end_run()] that returned, and an
    [__exit__] that is handed an exception is handed the one that the call
    right before it raised: a block is left through its last statement or
    through the first call that raises. *)
Theorem exit_handed_what_block_raised World
  (lib : call -> World -> outcome value * World) (w : World)
  (pre post : list entry) (mgr : value) (exc : option value)
  (o : outcome value) :
  journal (notebook lib) w = pre ++ (ctx_exit mgr exc, o) :: post ->
  exists pre' prev, pre = pre' ++ [prev] /\ explains exc prev.
Proof.
  intros E.
  assert (H : exits_explained (journal (notebook lib) w)).
  { apply exits_follow_journal.
    apply (@preserves_journal World unit (notebook lib) w exits_follow);
      [apply notebook_exits_follow | exact I]. }
  exact (H _ _ _ _ _ E).
Qed.

Lemma exit_handed_what_block_raised_witness :
  let lib := failing_on "mlflow.sklearn.log_model" sim_lib in
  exists pre' prev,
    firstn 22 (journal (notebook lib) 0%N) = pre' ++ [prev] /\
    explains (Some (VStr "mlflow.sklearn.log_model")) prev.
Proof.
  intros lib.
  apply (@exit_handed_what_block_raised N lib 0%N
           (firstn 22 (journal (notebook lib) 0%N))
           (skipn 23 (journal (notebook lib) 0%N))
           (VObj 7) (Some (VStr "mlflow.sklearn.log_model"))
           (Val (VBool false))).
  vm_compute. reflexivity.
Defined.

(** X10.  On a library whose only randomness is the global generator, two
    executions of the notebook in which every call returns log the same
    silhouette score in the run "DBSCAN", with the same parameters
    [min_samples = 5] and [eps = 0.5]: unlike the KMeans runs, this run does
    not depend on the state of the generator. *)
Theorem dbscan_score_reproducible World
  (lib : call -> World -> outcome value * World) (w w' : World) :
  seeded_deterministic lib ->
  clean (journal (notebook lib) w) ->
  clean (journal (notebook lib) w') ->
  exists score,
    map scalars (skipn 2 (ended_runs (journal (notebook lib) w))) =
      [ (VStr "DBSCAN",
         [(VStr "min_samples", VInt 5); (VStr "eps", VFloat (1 # 2)%Q)],
         [(VStr "silhoutte_score", score)]) ] /\
    map scalars (skipn 2 (ended_runs (journal (notebook lib) w'))) =
      [ (VStr "DBSCAN",
         [(VStr "min_samples", VInt 5); (VStr "eps", VFloat (1 # 2)%Q)],
         [(VStr "silhoutte_score", score)]) ].
Proof.
  intros Hlib Hc Hc'.
  destruct (dbscan_score_determined w w Hlib Hc)
    as (db & X & model & labels & score & A1 & A2 & A3 & A4 & A5 & E).
  destruct (dbscan_score_determined w w' Hlib Hc')
    as (db' & X' & model' & labels' & score' & B1 & B2 & B3 & B4 & B5 & E').
  exists score. split; [exact E |].
  rewrite E'. repeat f_equal. congruence.
Qed.

Lemma dbscan_score_reproducible_witness :
  exists score,
    map scalars (skipn 2 (ended_runs (journal (notebook sim_lib) 0%N))) =
      [ (VStr "DBSCAN",
         [(VStr "min_samples", VInt 5); (VStr "eps", VFloat (1 # 2)%Q)],
         [(VStr "silhoutte_score", score)]) ] /\
    map scalars (skipn 2 (ended_runs (journal (notebook sim_lib) 1%N))) =
      [ (VStr "DBSCAN",
         [(VStr "min_samples", VInt 5); (VStr "eps", VFloat (1 # 2)%Q)],
         [(VStr "silhoutte_score", score)]) ].
Proof.
  apply (@dbscan_score_reproducible N sim_lib 0%N 1%N).
  - exact sim_lib_contract.
  - vm_compute. repeat constructor.
  - vm_compute. repeat constructor.
Defined.

(** X11.  Whatever the library answers, also when an [__exit__] swallowed an
    exception, the run names handed to [mlflow.start_run] are the first of
    "Kmeans - K=2", "Kmeans - K=3", "DBSCAN", in this order: no run is
    started twice and none is skipped.  When the notebook ends without
    exception, the three of them were started. *)
Theorem named_runs_started_in_order World
  (lib : call -> World -> outcome value * World) (w : World) :
  (exists rest,
     named_runs = started_names (journal (notebook lib) w) ++ rest) /\
  (result (notebook lib) w = Val tt ->
   started_names (journal (notebook lib) w) = named_runs).
Proof.
  destruct (projects_journal w (notebook_started_names lib)) as [Hv Hp].
  split; [exact Hp |].
  intros Hr. apply Hv. exists tt. exact Hr.
Qed.

Lemma named_runs_started_in_order_witness :
  started_names (journal (notebook sim_lib) 0%N) = named_runs.
Proof.
  apply (proj2 (@named_runs_started_in_order N sim_lib 0%N)).
  vm_compute. reflexivity.
Defined.

(** X12.  Whatever the library answers, also when an [__exit__] swallowed an
    exception, the calls outside the runs that set the notebook up and end
    it are made in the order of the script and at most once each: the five
    imports, [load_iris], [mlflow.autolog], [mlflow.create_experiment] and
    the shell escape.  When the notebook ends without exception, each of
    them was made. *)
Theorem setup_calls_once_in_order World
  (lib : call -> World -> outcome value * World) (w : World) :
  (exists rest,
     notebook_setup = setup_calls (journal (notebook lib) w) ++ rest) /\
  (result (notebook lib) w = Val tt ->
   setup_calls (journal (notebook lib) w) = notebook_setup).
Proof.
  destruct (projects_journal w (notebook_setup_calls lib)) as [Hv Hp].
  split; [exact Hp |].
  intros Hr. apply Hv. exists tt. exact Hr.
Qed.

Lemma setup_calls_once_in_order_witness :
  setup_calls (journal (notebook sim_lib) 0%N) = notebook_setup.
Proof.
  apply (proj2 (@setup_calls_once_in_order N sim_lib 0%N)).
  vm_compute. reflexivity.
Defined.
